(** * summarize-pdf: the chapter segmenter and the upload pipeline of
    [src/index.js], embedded and verified.

    [segmentIntoChapters] is the same in the earlier version of the file
    (src/unnamed/part_000, lines 47-50).

    JavaScript strings are sequences of UTF-16 code units; they are modelled
    as lists of [N].  The library functions the program calls
    ([String.prototype.trim], [String.prototype.split] with a regular
    expression, [Array.prototype.filter]) are written out after ECMA-262. *)

From Stdlib Require Import String Ascii.
From Stdlib Require Import List NArith Arith Lia Bool.
From Equations Require Import Equations.
Import ListNotations.

(** ** JavaScript strings *)

Definition jsstring := list N.

(** An ASCII literal as a JavaScript string. *)
Definition str (s : string) : jsstring :=
  List.map N_of_ascii (list_ascii_of_string s).

Definition LF : N := 10%N.

Definition jsstring_eqb (a b : jsstring) : bool :=
  if list_eq_dec N.eq_dec a b then true else false.

(** [s.substring(from, to)] for [from <= to]. *)
Definition substring (s : jsstring) (from to : nat) : jsstring :=
  firstn (to - from) (skipn from s).

(** ** [String.prototype.trim]

    [trim] strips WhiteSpace and LineTerminator code points from both ends
    (ECMA-262, TrimString). *)

Definition is_white_space (c : N) : bool :=
  ((c =? 9) || (c =? 10) || (c =? 11) || (c =? 12) || (c =? 13) ||
   (c =? 32) || (c =? 160) || (c =? 5760) ||
   ((8192 <=? c) && (c <=? 8202)) ||
   (c =? 8232) || (c =? 8233) || (c =? 8239) || (c =? 8287) ||
   (c =? 12288) || (c =? 65279))%N.

Fixpoint trimStart (s : jsstring) : jsstring :=
  match s with
  | [] => []
  | c :: s' => if is_white_space c then trimStart s' else s
  end.

Definition trimEnd (s : jsstring) : jsstring := rev (trimStart (rev s)).

Definition trim (s : jsstring) : jsstring := trimEnd (trimStart s).

(** ** The regular expression [/Chapter \d+/i] *)

(** [\d] without the [u] flag is exactly [0-9]. *)
Definition is_digit (c : N) : bool := ((48 <=? c) && (c <=? 57))%N.

Definition is_upper (c : N) : bool := ((65 <=? c) && (c <=? 90))%N.
Definition is_lower (c : N) : bool := ((97 <=? c) && (c <=? 122))%N.

(** Case-insensitive comparison of an input code unit [c] with a pattern
    character [p] below 128.  Under the [i] flag without [u], Canonicalize
    upper-cases a code unit but leaves it alone when that would map a code
    unit of 128 or more to one below 128; so a pattern character below 128
    is matched by itself and by its ASCII counterpart of the other case, and
    by nothing else. *)
Definition char_matches_ci (p c : N) : bool :=
  ((c =? p) ||
   (is_upper p && (c =? p + 32)) ||
   (is_lower p && (c =? p - 32)))%N.

(** The literal prefix of the pattern: "Chapter" and one space (U+0020). *)
Definition heading_literal : jsstring := str "Chapter ".

(** Match the literal part at the head of [s]; the rest of the input. *)
Fixpoint match_literal (pat s : jsstring) : option jsstring :=
  match pat with
  | [] => Some s
  | p :: pat' =>
      match s with
      | [] => None
      | c :: s' => if char_matches_ci p c then match_literal pat' s' else None
      end
  end.

(** The greedy [\d+]: the length of the run of digits at the head of [s]. *)
Fixpoint digits_run (s : jsstring) : nat :=
  match s with
  | [] => 0
  | c :: s' => if is_digit c then S (digits_run s') else 0
  end.

(** The length of the match of [/Chapter \d+/i] anchored at the head of [s],
    if there is one. *)
Definition heading_match (s : jsstring) : option nat :=
  match match_literal heading_literal s with
  | None => None
  | Some r =>
      match digits_run r with
      | 0 => None
      | S n => Some (length heading_literal + S n)
      end
  end.

(** RegExpBuiltinExec of the sticky copy of the pattern that
    [RegExp.prototype[Symbol.split]] makes: a match is tried at [lastIndex]
    only; the result is the end index of the match. *)
Definition RegExpExec (s : jsstring) (lastIndex : nat) : option nat :=
  match heading_match (skipn lastIndex s) with
  | None => None
  | Some n => Some (lastIndex + n)
  end.

Lemma match_literal_length pat s r :
  match_literal pat s = Some r -> length s = length pat + length r.
Proof.
  revert s; induction pat as [|p pat IH]; intros s H; simpl in *.
  - now inversion H.
  - destruct s as [|c s]; [discriminate|].
    destruct (char_matches_ci p c); [|discriminate].
    simpl. now rewrite (IH _ H).
Qed.

Lemma digits_run_le s : digits_run s <= length s.
Proof.
  induction s as [|c s IH]; simpl; [lia|].
  destruct (is_digit c); simpl; lia.
Qed.

Lemma heading_match_bounds s n :
  heading_match s = Some n -> 9 <= n <= length s.
Proof.
  unfold heading_match.
  destruct (match_literal heading_literal s) as [r|] eqn:E; [|discriminate].
  apply match_literal_length in E.
  pose proof (digits_run_le r) as Hle.
  destruct (digits_run r) as [|k]; [discriminate|].
  intros H; inversion H; subst; clear H.
  change (length heading_literal) with 8 in *. lia.
Qed.

Lemma RegExpExec_bounds s q e :
  RegExpExec s q = Some e -> q + 9 <= e /\ (q < length s -> e <= length s).
Proof.
  unfold RegExpExec.
  destruct (heading_match (skipn q s)) as [n|] eqn:E; [|discriminate].
  intros H; inversion H; subst; clear H.
  apply heading_match_bounds in E. rewrite length_skipn in E. lia.
Qed.

(** ** [String.prototype.split] with the regular expression

    The loop of [RegExp.prototype[Symbol.split]] (ECMA-262 22.2.6.14) with no
    limit and no capture groups: [p] is the start of the piece being
    collected, [q] the position where a match is tried, [A] the array of
    pieces so far. *)
Equations? split_loop (s : jsstring) (p q : nat) (A : list jsstring)
  : list jsstring by wf (length s - q) lt :=
  split_loop s p q A with Equations.Prop.Logic.inspect (q <? length s) := {
    | exist _ false Hq => A ++ [substring s p (length s)]
    | exist _ true Hq with Equations.Prop.Logic.inspect (RegExpExec s q) := {
        | exist _ None Hz => split_loop s p (q + 1) A
        | exist _ (Some e) Hz with Equations.Prop.Logic.inspect (Nat.min e (length s) =? p) := {
            | exist _ true He => split_loop s p (q + 1) A
            | exist _ false He =>
                split_loop s (Nat.min e (length s)) (Nat.min e (length s))
                  (A ++ [substring s p q]) } } }.
Proof.
  all: apply Nat.ltb_lt in Hq.
  all: try lia.
  apply RegExpExec_bounds in Hz. lia.
Qed.

(** [text.split(/Chapter \d+/i)]: for the empty string the result is [[text]]
    when the pattern does not match it, and the empty array when it does. *)
Definition split (s : jsstring) : list jsstring :=
  match s with
  | [] => match RegExpExec s 0 with
          | None => [s]
          | Some _ => []
          end
  | _ :: _ => split_loop s 0 0 []
  end.

(** ** [segmentIntoChapters] (src/index.js, lines 50-53) *)

Definition segmentIntoChapters (text : jsstring) : list jsstring :=
  let chapters := split text in
  List.filter (fun chapter => negb (jsstring_eqb (trim chapter) [])) chapters.

(** ** What "splitting on the headings" means

    A declarative account of the split, to compare the code with. *)

(** [d] is a heading: "Chapter" in any letter case, one space (U+0020), and
    one or more digits; nothing else. *)
Definition is_heading (d : jsstring) : Prop :=
  exists w ds,
    d = w ++ ds /\
    Forall2 (fun p c => char_matches_ci p c = true) heading_literal w /\
    ds <> [] /\
    Forall (fun c => is_digit c = true) ds.

(** A heading starts at index [i] of [s]. *)
Definition heading_at (s : jsstring) (i : nat) : Prop :=
  exists d rest, skipn i s = d ++ rest /\ is_heading d.

(** [e] contains an occurrence of the heading pattern. *)
Definition occurs_in (e : jsstring) : Prop :=
  exists a d b, e = a ++ d ++ b /\ is_heading d.

(** [SplitOn s ps]: [ps] are the pieces of [s] between its headings, the
    headings found from left to right, each taken with all its digits. *)
Inductive SplitOn : jsstring -> list jsstring -> Prop :=
| SplitOn_done s :
    (forall i, ~ heading_at s i) ->
    SplitOn s [s]
| SplitOn_next pre d rest ps :
    (forall i, i < length pre -> ~ heading_at (pre ++ d ++ rest) i) ->
    is_heading d ->
    digits_run rest = 0 ->
    SplitOn rest ps ->
    SplitOn (pre ++ d ++ rest) (pre :: ps).

(** The elements of [es] occur in [s] one after the other, without
    overlap. *)
Inductive in_order_within : list jsstring -> jsstring -> Prop :=
| iow_nil s : in_order_within [] s
| iow_cons a e b es :
    in_order_within es b ->
    in_order_within (e :: es) (a ++ e ++ b).

(** A string of white space only (the empty string included). *)
Definition is_blank (s : jsstring) : bool := forallb is_white_space s.

(** *** The segmenter in the words of the specification

    Section 4.1: split on "Chapter" followed by whitespace and one or more
    digits (case-insensitive), discard the delimiters, trim each piece,
    remove the empty ones.  This second segmenter is only compared with
    [segmentIntoChapters]; nothing else is proved about it. *)

(** A delimiter as specified, at the head of [s]: its length. *)
Definition specified_heading_match (s : jsstring) : option nat :=
  match match_literal (str "Chapter") s with
  | Some (c :: r) =>
      if is_white_space c then
        match digits_run r with
        | 0 => None
        | S n => Some (8 + S n)
        end
      else None
  | _ => None
  end.

(** The pieces between the delimiters: [skip] code units of a delimiter are
    still to be passed over, [piece] is the piece collected so far, in
    reverse. *)
Fixpoint specified_pieces (skip : nat) (piece s : jsstring) : list jsstring :=
  match s with
  | [] => [rev piece]
  | c :: s' =>
      match skip with
      | S k => specified_pieces k piece s'
      | 0 =>
          match specified_heading_match s with
          | Some n => rev piece :: specified_pieces (n - 1) [] s'
          | None => specified_pieces 0 (c :: piece) s'
          end
      end
  end.

Definition specified_segmenter (text : jsstring) : list jsstring :=
  filter (fun c => negb (jsstring_eqb c []))
         (map trim (specified_pieces 0 [] text)).

(** Does a heading start anywhere in [s]?  (What [RegExp.prototype.test]
    would answer for the pattern.) *)
Definition has_heading (s : jsstring) : bool :=
  existsb (fun i => match heading_match (skipn i s) with
                    | Some _ => true
                    | None => false
                    end)
          (seq 0 (length s)).

Definition example_text : jsstring :=
  str "Chapter 1" ++ [LF] ++ str "foo" ++ [LF] ++
  str "Chapter 2" ++ [LF] ++ str "bar".

(** ** The upload pipeline (src/index.js, lines 44-48 and 55-188)

    The handler talks to a file system, a completion endpoint and a
    database.  Their state is a [world]; what they answer is given by
    [services].  A thrown exception leaves the world as it is at the throw:
    rows already inserted stay inserted. *)

Definition path := jsstring.
Definition buffer := list N.

(** Values thrown in the handler. *)
Inductive error : Type :=
| TypeError                               (* property of undefined or null *)
| ReadFileError                           (* fs.readFile rejects *)
| PdfParseError                           (* pdfParse rejects *)
| CompletionError                         (* the completion request rejects *)
| ParseFailure                            (* "Failed to parse API response." *)
| SupabaseError (message : jsstring)      (* "Supabase error: " + message *)
| UnlinkError.                            (* fs.unlink rejects *)

(** The body of the response the handler sends. *)
Inductive body : Type :=
| BookProcessed                           (* { message: "Book processed successfully!" } *)
| ProcessingError.                        (* { error: "An error occurred while processing the book." } *)

(** What the completion endpoint answers: a rejection, or a response whose
    [choices[0].message.content] is a string or null. *)
Inductive completion : Type :=
| CompletionFails
| Content (content : option jsstring).

(** The fence markers removed by [replace(/```json|```/g, "")]. *)
Definition fence : jsstring := [96; 96; 96]%N.
Definition fence_json : jsstring := fence ++ str "json".

Fixpoint starts_with (pre s : jsstring) : bool :=
  match pre with
  | [] => true
  | p :: pre' =>
      match s with
      | [] => false
      | c :: s' => (c =? p)%N && starts_with pre' s'
      end
  end.

(** The length of the match of [/```json|```/] at the head of [s]: the first
    alternative is tried first. *)
Definition fence_match (s : jsstring) : option nat :=
  if starts_with fence_json s then Some (length fence_json)
  else if starts_with fence s then Some (length fence)
  else None.

Lemma fence_match_pos s n : fence_match s = Some n -> 0 < n.
Proof.
  unfold fence_match.
  destruct (starts_with fence_json s); [intros H; inversion H; simpl; lia|].
  destruct (starts_with fence s); [intros H; inversion H; simpl; lia|].
  discriminate.
Qed.

(** [s.replace(/```json|```/g, "")]: every match, from left to right, is
    removed. *)
Equations? remove_fences (s : jsstring) : jsstring by wf (length s) lt :=
  remove_fences [] := [];
  remove_fences (c :: s') with Equations.Prop.Logic.inspect (fence_match (c :: s')) := {
    | exist _ (Some n) Hm => remove_fences (skipn n (c :: s'))
    | exist _ None _ => c :: remove_fences s' }.
Proof.
  apply fence_match_pos in Hm. rewrite length_skipn. cbn [length]. lia.
Qed.

Definition cleanResponse (responseText : jsstring) : jsstring :=
  trim (remove_fences responseText).

(** The result of a computation that may throw. *)
Inductive outcome (A : Type) : Type :=
| Return (a : A)
| Throw (e : error).
Arguments Return {A} a.
Arguments Throw {A} e.

Section Pipeline.

(** JSON numbers (IEEE doubles) are only passed on, never computed with. *)
Variable number : Type.

#[local] Set Warnings "-register-all".

Inductive json : Type :=
| JNull
| JBool (b : bool)
| JNumber (n : number)
| JString (s : jsstring)
| JArray (items : list json)
| JObject (members : list (jsstring * json)).

(** [JSON.parse]: [None] when it throws a SyntaxError. *)
Variable JSON_parse : jsstring -> option json.

(** [pdfParse(dataBuffer)], then [data.text]: [None] when it rejects. *)
Variable pdfParse : buffer -> option jsstring.

(** A JavaScript value read from the parsed result: [None] is [undefined]. *)
Definition jsvalue := option json.

(** [JSON.parse] keeps the last of the members with the same key. *)
Fixpoint get_member (key : jsstring) (members : list (jsstring * json)) : jsvalue :=
  match members with
  | [] => None
  | (k, v) :: rest =>
      match get_member key rest with
      | Some v' => Some v'
      | None => if jsstring_eqb k key then Some v else None
      end
  end.

(** [result.key] for one of the seven keys the handler reads: only an
    object can have it. *)
Definition get_property (result : json) (key : jsstring) : jsvalue :=
  match result with
  | JObject members => get_member key members
  | _ => None
  end.

(** A row of the table "summaries", as given to [insert]. *)
Record row : Type := {
  chapter_number : nat;
  summary : jsvalue;
  clarity_score : jsvalue;
  cohesion_score : jsvalue;
  coverage_score : jsvalue;
  granularity_score : jsvalue;
  storytelling_score : jsvalue;
  overall_score : jsvalue
}.

(** Lines written with [console.log] and [console.error]. *)
Inductive line : Type :=
| LogProcessing (n : nat)                 (* "Processing Chapter n..." *)
| LogStored (n : nat)                     (* "Chapter n summary and scores stored in Supabase." *)
| ErrParsing                              (* "Error parsing API response:" *)
| ErrResponseText (cleaned : jsstring)    (* "Response text:" *)
| ErrSupabase (message : jsstring)        (* "Supabase error:" *)
| ErrCaught (e : error).                  (* console.error(error) of the handler *)

Record world : Type := {
  files : list (path * buffer);           (* the upload directory *)
  summaries : list row;                   (* the table "summaries" *)
  completion_calls : list jsstring;       (* the user contents sent so far *)
  unlink_calls : list path;               (* the paths given to fs.unlink so far *)
  console : list line
}.

(** The answers of the outside: the completion endpoint (given the contents
    sent before and the one sent now), the database (given the table and the
    row; [Some message] is the [error] of the insert result), [fs.unlink]. *)
Record services : Type := {
  complete : list jsstring -> jsstring -> completion;
  insert_error : list row -> row -> option jsstring;
  unlink_fails : path -> bool
}.

Variable sv : services.

(** *** Computations that change the world and may throw *)

Definition M (A : Type) : Type := world -> outcome A * world.

Definition ret {A : Type} (a : A) : M A := fun w => (Return a, w).

Definition throw {A : Type} (e : error) : M A := fun w => (Throw e, w).

Definition bind {A B : Type} (c : M A) (k : A -> M B) : M B :=
  fun w =>
    match c w with
    | (Return a, w') => k a w'
    | (Throw e, w') => (Throw e, w')
    end.

Definition try_catch {A : Type} (c : M A) (handler : error -> M A) : M A :=
  fun w =>
    match c w with
    | (Return a, w') => (Return a, w')
    | (Throw e, w') => handler e w'
    end.

Notation "x <- c ;; k" := (bind c (fun x => k))
  (at level 61, c at next level, right associativity).
Notation "c ;; k" := (bind c (fun _ => k))
  (at level 61, right associativity).

Definition add_line (w : world) (l : line) : world :=
  {| files := files w; summaries := summaries w;
     completion_calls := completion_calls w;
     unlink_calls := unlink_calls w;
     console := console w ++ [l] |}.

Definition console_write (l : line) : M unit :=
  fun w => (Return tt, add_line w l).

Definition console_log := console_write.
Definition console_error := console_write.

(** *** The file system *)

Fixpoint lookup_file (p : path) (fs : list (path * buffer)) : option buffer :=
  match fs with
  | [] => None
  | (p', b) :: fs' => if jsstring_eqb p' p then Some b else lookup_file p fs'
  end.

Definition remove_file (p : path) (fs : list (path * buffer)) : list (path * buffer) :=
  filter (fun entry => negb (jsstring_eqb (fst entry) p)) fs.

(** [fs.readFile(filePath)] *)
Definition fs_readFile (filePath : path) : M buffer :=
  fun w =>
    match lookup_file filePath (files w) with
    | Some b => (Return b, w)
    | None => (Throw ReadFileError, w)
    end.

(** [fs.unlink(filePath)]: rejects when there is no such file, or when the
    system refuses; the call is recorded either way. *)
Definition fs_unlink (filePath : path) : M unit :=
  fun w =>
    let attempted := unlink_calls w ++ [filePath] in
    match lookup_file filePath (files w) with
    | None =>
        (Throw UnlinkError,
         {| files := files w; summaries := summaries w;
            completion_calls := completion_calls w;
            unlink_calls := attempted; console := console w |})
    | Some _ =>
        if unlink_fails sv filePath then
          (Throw UnlinkError,
           {| files := files w; summaries := summaries w;
              completion_calls := completion_calls w;
              unlink_calls := attempted; console := console w |})
        else
          (Return tt,
           {| files := remove_file filePath (files w); summaries := summaries w;
              completion_calls := completion_calls w;
              unlink_calls := attempted; console := console w |})
    end.

(** [extractTextFromPDF] (lines 44-48) *)
Definition extractTextFromPDF (filePath : path) : M jsstring :=
  dataBuffer <- fs_readFile filePath ;;
  match pdfParse dataBuffer with
  | Some text => ret text
  | None => throw PdfParseError
  end.

(** *** The completion endpoint *)

(** [openai.chat.completions.create(...)] with [text] as the user content,
    then [response.choices[0].message.content]. *)
Definition chat_completion (text : jsstring) : M (option jsstring) :=
  fun w =>
    let w' := {| files := files w; summaries := summaries w;
                 completion_calls := completion_calls w ++ [text];
                 unlink_calls := unlink_calls w; console := console w |} in
    match complete sv (completion_calls w) text with
    | CompletionFails => (Throw CompletionError, w')
    | Content c => (Return c, w')
    end.

(** [getSummaryFromDeepSeek] (lines 55-107) *)
Definition getSummaryFromDeepSeek (text : jsstring) : M json :=
  content <- chat_completion text ;;
  match content with
  | None => throw TypeError                (* null.replace *)
  | Some responseText =>
      let cleanedResponse := cleanResponse responseText in
      match JSON_parse cleanedResponse with
      | Some result => ret result
      | None =>
          console_error ErrParsing ;;
          console_error (ErrResponseText cleanedResponse) ;;
          throw ParseFailure
      end
  end.

(** *** The database *)

(** [supabase.from("summaries").insert([r])]: the [error] of the result. *)
Definition supabase_insert (r : row) : M (option jsstring) :=
  fun w =>
    match insert_error sv (summaries w) r with
    | Some message => (Return (Some message), w)
    | None =>
        (Return None,
         {| files := files w; summaries := summaries w ++ [r];
            completion_calls := completion_calls w;
            unlink_calls := unlink_calls w; console := console w |})
    end.

(** [storeSummaryInSupabase] (lines 109-138) *)
Definition storeSummaryInSupabase
    (chapterNumber : nat)
    (summary clarityScore cohesionScore coverageScore granularityScore
       storytellingScore overallScore : jsvalue) : M unit :=
  error <- supabase_insert
             {| chapter_number := chapterNumber;
                summary := summary;
                clarity_score := clarityScore;
                cohesion_score := cohesionScore;
                coverage_score := coverageScore;
                granularity_score := granularityScore;
                storytelling_score := storytellingScore;
                overall_score := overallScore |} ;;
  match error with
  | Some message =>
      console_error (ErrSupabase message) ;;
      throw (SupabaseError message)
  | None => ret tt
  end.

(** *** The handler of POST /upload (lines 140-188) *)

(** [req.file]: [None] when the request carries no file "book". *)
Record request : Type := { file : option path }.

(** The object pattern [{ summary, clarity_score, ... } = result]: a
    TypeError when [result] is null. *)
Definition destructure (result : json) : M json :=
  match result with
  | JNull => throw TypeError
  | _ => ret result
  end.

(** One turn of the loop, for the index [i]. *)
Definition process_chapter (chapters : list jsstring) (i : nat) : M unit :=
  console_log (LogProcessing (i + 1)) ;;
  result <- getSummaryFromDeepSeek (nth i chapters []) ;;
  fields <- destructure result ;;
  storeSummaryInSupabase
    (i + 1)
    (get_property fields (str "summary"))
    (get_property fields (str "clarity_score"))
    (get_property fields (str "cohesion_score"))
    (get_property fields (str "coverage_score"))
    (get_property fields (str "granularity_score"))
    (get_property fields (str "storytelling_score"))
    (get_property fields (str "overall_score")) ;;
  console_log (LogStored (i + 1)).

(** [for (let i = from; i < from + n; i++) body(i)] *)
Fixpoint for_loop (n : nat) (from : nat) (body : nat -> M unit) : M unit :=
  match n with
  | 0 => ret tt
  | S n' => body from ;; for_loop n' (S from) body
  end.

Definition upload_handler (req : request) : M (nat * body) :=
  try_catch
    (filePath <- match file req with
                 | Some p => ret p
                 | None => throw TypeError  (* req.file.path of undefined *)
                 end ;;
     text <- extractTextFromPDF filePath ;;
     let chapters := segmentIntoChapters text in
     for_loop (length chapters) 0 (process_chapter chapters) ;;
     fs_unlink filePath ;;
     ret (200, BookProcessed))
    (fun error =>
       console_error (ErrCaught error) ;;
       ret (500, ProcessingError)).

End Pipeline.

Arguments JNull {number}.
Arguments JBool {number} b.
Arguments JNumber {number} n.
Arguments JString {number} s.
Arguments JArray {number} items.
Arguments JObject {number} members.
Arguments Build_row {number}.
Arguments chapter_number {number}.
Arguments summary {number}.
Arguments clarity_score {number}.
Arguments cohesion_score {number}.
Arguments coverage_score {number}.
Arguments granularity_score {number}.
Arguments storytelling_score {number}.
Arguments overall_score {number}.
Arguments Build_world {number}.
Arguments files {number}.
Arguments summaries {number}.
Arguments completion_calls {number}.
Arguments unlink_calls {number}.
Arguments console {number}.
Arguments Build_services {number}.
Arguments complete {number}.
Arguments insert_error {number}.
Arguments unlink_fails {number}.
Arguments get_member {number}.
Arguments get_property {number}.
Arguments ret {number A}.
Arguments throw {number A}.
Arguments bind {number A B}.
Arguments try_catch {number A}.
Arguments add_line {number}.
Arguments console_write {number}.
Arguments console_log {number}.
Arguments console_error {number}.
Arguments fs_readFile {number}.
Arguments fs_unlink {number}.
Arguments extractTextFromPDF {number}.
Arguments chat_completion {number}.
Arguments getSummaryFromDeepSeek {number}.
Arguments supabase_insert {number}.
Arguments storeSummaryInSupabase {number}.
Arguments destructure {number}.
Arguments process_chapter {number}.
Arguments for_loop {number}.
Arguments upload_handler {number}.

(** ** What a run of the loop is expected to leave behind

    The vocabulary of the claims about the handler: the row of a parsed
    result, the world after the first [k] chapters went through, and what it
    means for a chapter to go through or to fail. *)

Section Expected.

Variable number : Type.
Variable JSON_parse : jsstring -> option (json number).
Variable sv : services number.

(** The row for chapter number [n] whose parsed result is [v]: every field
    is the property of that name, as it is. *)
Definition row_of (n : nat) (v : json number) : row number :=
  {| chapter_number := n;
     summary := get_property v (str "summary");
     clarity_score := get_property v (str "clarity_score");
     cohesion_score := get_property v (str "cohesion_score");
     coverage_score := get_property v (str "coverage_score");
     granularity_score := get_property v (str "granularity_score");
     storytelling_score := get_property v (str "storytelling_score");
     overall_score := get_property v (str "overall_score") |}.

(** The rows of the first [k] chapters, [results i] being the parsed result
    of the chapter at index [i]. *)
Definition rows_upto (results : nat -> json number) (k : nat) : list (row number) :=
  map (fun i => row_of (i + 1) (results i)) (seq 0 k).

(** The chapters at the indices below [k]. *)
Definition sent (chapters : list jsstring) (k : nat) : list jsstring :=
  map (fun i => nth i chapters []) (seq 0 k).

Definition loop_lines (k : nat) : list line :=
  flat_map (fun i => [LogProcessing (i + 1); LogStored (i + 1)]) (seq 0 k).

(** The world after the chapters at the indices below [k] went through,
    from the world [w]. *)
Definition world_after (w : world number) (chapters : list jsstring)
    (results : nat -> json number) (k : nat) : world number :=
  {| files := files w;
     summaries := summaries w ++ rows_upto results k;
     completion_calls := completion_calls w ++ sent chapters k;
     unlink_calls := unlink_calls w;
     console := console w ++ loop_lines k |}.

(** The world in which the turn of the chapter at index [k] has thrown:
    the chapter was sent, no row was added, [lines] were written. *)
Definition world_failed (w : world number) (chapters : list jsstring)
    (results : nat -> json number) (k : nat) (lines : list line) : world number :=
  {| files := files w;
     summaries := summaries w ++ rows_upto results k;
     completion_calls := completion_calls w ++ sent chapters (S k);
     unlink_calls := unlink_calls w;
     console := console w ++ loop_lines k ++ lines |}.

(** The chapter at index [j] goes through: the endpoint answers with a text
    that, cleaned, parses to [results j], which is not null, and the
    database takes its row. *)
Definition chapter_ok (w : world number) (chapters : list jsstring)
    (results : nat -> json number) (j : nat) : Prop :=
  exists content,
    complete sv (completion_calls w ++ sent chapters j) (nth j chapters [])
      = Content (Some content) /\
    JSON_parse (cleanResponse content) = Some (results j) /\
    results j <> JNull /\
    insert_error sv (summaries w ++ rows_upto results j)
      (row_of (j + 1) (results j)) = None.

(** The answer for the chapter at index [k] is a text that, cleaned, is not
    valid JSON. *)
Definition chapter_unparseable (w : world number) (chapters : list jsstring)
    (k : nat) (content : jsstring) : Prop :=
  complete sv (completion_calls w ++ sent chapters k) (nth k chapters [])
    = Content (Some content) /\
  JSON_parse (cleanResponse content) = None.

(** The chapter at index [k] fails, in its summarization (the request is
    rejected, the content is null or does not parse, the parsed result is
    null) or in its insert. *)
Definition chapter_fails (w : world number) (chapters : list jsstring)
    (results : nat -> json number) (k : nat) : Prop :=
  match complete sv (completion_calls w ++ sent chapters k) (nth k chapters []) with
  | CompletionFails => True
  | Content None => True
  | Content (Some content) =>
      match JSON_parse (cleanResponse content) with
      | None => True
      | Some JNull => True
      | Some v =>
          insert_error sv (summaries w ++ rows_upto results k)
            (row_of (k + 1) v) <> None
      end
  end.

End Expected.

Arguments row_of {number}.
Arguments rows_upto {number}.
Arguments loop_lines : clear implicits.
Arguments world_after {number}.
Arguments world_failed {number}.
Arguments chapter_ok {number}.
Arguments chapter_unparseable {number}.
Arguments chapter_fails {number}.

(** ** Start of the process (lines 22-38 and 192-200)

    [app.listen(port, callback)] binds the listener and then runs the
    callback, which awaits [checkSupabaseConnection()].  While the read is
    awaited the event loop serves what arrives.  The process is a state and
    a step per event. *)

(** How the awaited [select("*").limit(1)] settles. *)
Inductive select_result : Type :=
| SelectData                              (* { data, error: null } *)
| SelectError                             (* { error } *)
| SelectThrows.                           (* the promise rejects *)

Inductive startup_line : Type :=
| LogServerRunning                        (* "Server running on http://localhost:3000" *)
| LogConnected                            (* "Supabase connected successfully!" *)
| ErrConnection                           (* "Supabase connection error:" *)
| ErrChecking                             (* "Error checking Supabase connection:" *)
| ErrExiting.                             (* "Failed to connect to Supabase. Exiting..." *)

(** [checkSupabaseConnection] (lines 22-38), once the read has settled: the
    lines it writes and what it returns. *)
Definition checkSupabaseConnection (r : select_result) : list startup_line * bool :=
  match r with
  | SelectError => ([ErrConnection], false)
  | SelectData => ([LogConnected], true)
  | SelectThrows => ([ErrChecking], false)
  end.

Record process : Type := {
  listening : bool;                       (* the listener is bound *)
  check_pending : bool;                   (* the callback is at its await *)
  exit_code : option nat;                 (* set by process.exit *)
  accepted : nat;                         (* upload requests given to the handler *)
  output : list startup_line
}.

Inductive event : Type :=
| Listening                               (* the listener is bound: the callback starts *)
| SelectSettled (r : select_result)       (* the awaited read settles *)
| UploadRequest.                          (* a POST /upload arrives *)

(** The process before [app.listen]. *)
Definition boot : process :=
  {| listening := false; check_pending := false; exit_code := None;
     accepted := 0; output := [] |}.

Definition step (p : process) (e : event) : process :=
  match exit_code p with
  | Some _ => p                           (* an exited process does nothing *)
  | None =>
      match e with
      | Listening =>
          {| listening := true; check_pending := true; exit_code := None;
             accepted := accepted p; output := output p ++ [LogServerRunning] |}
      | SelectSettled r =>
          if check_pending p then
            let (lines, isSupabaseConnected) := checkSupabaseConnection r in
            if negb isSupabaseConnected then
              {| listening := listening p; check_pending := false;
                 exit_code := Some 1; accepted := accepted p;
                 output := output p ++ lines ++ [ErrExiting] |}
            else
              {| listening := listening p; check_pending := false;
                 exit_code := None; accepted := accepted p;
                 output := output p ++ lines |}
          else p
      | UploadRequest =>
          if listening p then
            {| listening := listening p; check_pending := check_pending p;
               exit_code := None; accepted := S (accepted p);
               output := output p |}
          else p
      end
  end.

Definition run (p : process) (events : list event) : process :=
  fold_left step events p.

Definition is_upload (e : event) : bool :=
  match e with
  | UploadRequest => true
  | _ => false
  end.

(** ** Sample runs

    A two-chapter upload, to run the handler on.  The PDF extractor and
    [JSON.parse] are given on the inputs of the sample only. *)

Module Sample.

Definition upload_path : path := str "uploads/3f2a".

(** The extractor, on the sample buffer: the text is the buffer itself. *)
Definition pdfParse (b : buffer) : option jsstring := Some b.

(** The answer of the endpoint: an object with an overall score of 11,
    inside a fence. *)
Definition answer_text : jsstring :=
  str "{" ++ [34%N] ++ str "overall_score" ++ [34%N] ++ str ":11}".

Definition fenced_answer : jsstring :=
  fence_json ++ [LF] ++ answer_text ++ [LF] ++ fence.

Definition answer : json N := JObject [(str "overall_score", JNumber 11%N)].

(** [JSON.parse] on the texts of the sample: the answer and "null" parse,
    the others are taken as not valid. *)
Definition JSON_parse (s : jsstring) : option (json N) :=
  if jsstring_eqb s answer_text then Some answer
  else if jsstring_eqb s (str "null") then Some JNull
  else None.

Definition results (i : nat) : json N := answer.

Definition request_book : request := {| file := Some upload_path |}.

(** The two chapters of [example_text], as the segmenter returns them. *)
Definition chapter_1 : jsstring := [LF] ++ str "foo" ++ [LF].
Definition chapter_2 : jsstring := [LF] ++ str "bar".

Definition world0 : world N :=
  {| files := [(upload_path, example_text)];
     summaries := [];
     completion_calls := [];
     unlink_calls := [];
     console := [] |}.

(** Everything works. *)
Definition all_fine : services N :=
  {| complete := fun _ _ => Content (Some fenced_answer);
     insert_error := fun _ _ => None;
     unlink_fails := fun _ => false |}.

(** The second completion request is rejected (a network error). *)
Definition second_call_fails : services N :=
  {| complete := fun earlier _ =>
                   match earlier with
                   | [] => Content (Some fenced_answer)
                   | _ :: _ => CompletionFails
                   end;
     insert_error := fun _ _ => None;
     unlink_fails := fun _ => false |}.

(** The second answer is not JSON. *)
Definition second_answer_garbled : services N :=
  {| complete := fun earlier _ =>
                   match earlier with
                   | [] => Content (Some fenced_answer)
                   | _ :: _ => Content (Some (str "Sorry, I cannot do that."))
                   end;
     insert_error := fun _ _ => None;
     unlink_fails := fun _ => false |}.

(** Everything works but the deletion of the uploaded file. *)
Definition unlink_refused : services N :=
  {| complete := fun _ _ => Content (Some fenced_answer);
     insert_error := fun _ _ => None;
     unlink_fails := fun _ => true |}.

End Sample.

(** ** Vocabulary of the further properties *)

(** [c.toUpperCase()] for a code unit below 128: a small letter becomes the
    capital, the others stay. *)
Definition to_upper (c : N) : N := if is_lower c then (c - 32)%N else c.

Definition upper_case (s : jsstring) : jsstring := map to_upper s.

(** The first code unit of [s] is not a digit ([s] may be empty). *)
Definition no_leading_digit (s : jsstring) : Prop :=
  match s with
  | [] => True
  | c :: _ => is_digit c = false
  end.

(** The first code unit of [s] is white space. *)
Definition starts_with_white_space (s : jsstring) : bool :=
  match s with
  | [] => false
  | c :: _ => is_white_space c
  end.

(** A fence starts somewhere in [s]. *)
Definition has_fence (s : jsstring) : bool :=
  existsb (fun i => starts_with fence (skipn i s)) (seq 0 (length s)).

(** From the world [w] to the world [w']: the files are as they were,
    [fs.unlink] was not called, [stored] rows were added with the chapter
    numbers [from + 1], [from + 2], ..., and the chapters at the [called]
    indices from [from] on were sent to the endpoint. *)
Definition advanced {number : Type} (w w' : world number)
    (chapters : list jsstring) (from stored called : nat) : Prop :=
  files w' = files w /\
  unlink_calls w' = unlink_calls w /\
  (exists rows,
     summaries w' = summaries w ++ rows /\
     map chapter_number rows = seq (from + 1) stored) /\
  completion_calls w' =
    completion_calls w ++ map (fun i => nth i chapters []) (seq from called).

(** * Properties of the segmenter *)

Section Matcher.

Lemma match_literal_Some pat s r :
  match_literal pat s = Some r <->
  exists w, s = w ++ r /\ Forall2 (fun p c => char_matches_ci p c = true) pat w.
Proof.
  revert s; induction pat as [|p pat IH]; intros s; simpl.
  - split.
    + intros H; inversion H; subst. exists []. split; [reflexivity|constructor].
    + intros (w & -> & Hw). inversion Hw; subst. reflexivity.
  - destruct s as [|c s].
    + split; [discriminate|].
      intros (w & Hs & Hw). inversion Hw; subst. discriminate.
    + destruct (char_matches_ci p c) eqn:Hc.
      * rewrite IH. split.
        -- intros (w & -> & Hw). exists (c :: w). split; [reflexivity|].
           now constructor.
        -- intros (w & Hs & Hw). inversion Hw; subst.
           simpl in Hs. inversion Hs; subst. eauto.
      * split; [discriminate|].
        intros (w & Hs & Hw). inversion Hw; subst.
        simpl in Hs. inversion Hs; subst. congruence.
Qed.

Lemma digits_run_split s :
  exists ds rest,
    s = ds ++ rest /\ length ds = digits_run s /\
    Forall (fun c => is_digit c = true) ds /\ digits_run rest = 0.
Proof.
  induction s as [|c s (ds & rest & Hs & Hl & Hd & Hr)].
  - exists [], []. repeat split; constructor.
  - simpl. destruct (is_digit c) eqn:Hc.
    + exists (c :: ds), rest. subst s. simpl.
      repeat split; auto.
    + exists [], (c :: s). simpl. rewrite Hc. repeat split; constructor.
Qed.

Lemma digits_run_app ds rest :
  Forall (fun c => is_digit c = true) ds ->
  digits_run (ds ++ rest) = length ds + digits_run rest.
Proof.
  induction 1 as [|c ds Hc _ IH]; simpl; [reflexivity|].
  now rewrite Hc, IH.
Qed.

Lemma Forall2_length_eq {A B : Type} (R : A -> B -> Prop) l l' :
  Forall2 R l l' -> length l = length l'.
Proof. induction 1; simpl; congruence. Qed.

Lemma heading_match_Some s n :
  heading_match s = Some n ->
  exists d rest,
    s = d ++ rest /\ is_heading d /\ length d = n /\ digits_run rest = 0.
Proof.
  unfold heading_match.
  destruct (match_literal heading_literal s) as [r|] eqn:E; [|discriminate].
  apply match_literal_Some in E. destruct E as (w & -> & Hw).
  destruct (digits_run_split r) as (ds & rest & -> & Hl & Hd & Hr).
  destruct (digits_run (ds ++ rest)) as [|k] eqn:Hk; [discriminate|].
  intros H; inversion H; subst n; clear H.
  exists (w ++ ds), rest. rewrite <- app_assoc. split; [reflexivity|].
  split; [|split; [|assumption]].
  - exists w, ds. repeat split; auto.
    intros ->. discriminate.
  - rewrite length_app, <- (Forall2_length_eq _ _ _ Hw), Hl. reflexivity.
Qed.

Lemma heading_match_complete d rest :
  is_heading d -> exists n, heading_match (d ++ rest) = Some n.
Proof.
  intros (w & ds & -> & Hw & Hne & Hd).
  unfold heading_match. rewrite <- app_assoc.
  assert (E : match_literal heading_literal (w ++ ds ++ rest) = Some (ds ++ rest))
    by (apply match_literal_Some; eauto).
  rewrite E, (digits_run_app _ rest Hd).
  destruct ds as [|c ds]; [congruence|]. simpl. eauto.
Qed.

Lemma heading_match_None s :
  heading_match s = None <-> ~ heading_at s 0.
Proof.
  split.
  - intros H (d & rest & Hs & Hd). simpl in Hs. subst s.
    destruct (heading_match_complete d rest Hd) as (n & Hn). congruence.
  - intros H. destruct (heading_match s) as [n|] eqn:E; [|reflexivity].
    exfalso. apply H.
    destruct (heading_match_Some _ _ E) as (d & rest & Hs & Hd & _).
    exists d, rest. simpl. auto.
Qed.

Lemma heading_at_skipn s i j :
  heading_at (skipn i s) j <-> heading_at s (i + j).
Proof.
  unfold heading_at. rewrite skipn_skipn, (Nat.add_comm j i). reflexivity.
Qed.

Lemma heading_length d : is_heading d -> 9 <= length d.
Proof.
  intros Hd. destruct (heading_match_complete d [] Hd) as (n & Hn).
  apply heading_match_bounds in Hn. rewrite app_nil_r in Hn. lia.
Qed.

Lemma heading_at_bound s i : heading_at s i -> i + 9 <= length s.
Proof.
  intros (d & rest & Hs & Hd). apply heading_length in Hd.
  apply (f_equal (@length N)) in Hs.
  rewrite length_skipn, length_app in Hs. lia.
Qed.

Lemma RegExpExec_None s q : RegExpExec s q = None -> ~ heading_at s q.
Proof.
  unfold RegExpExec.
  destruct (heading_match (skipn q s)) as [n|] eqn:E; [discriminate|].
  intros _ Hq. apply heading_match_None in E. apply E.
  apply heading_at_skipn. now rewrite Nat.add_0_r.
Qed.

Lemma RegExpExec_Some s q e :
  RegExpExec s q = Some e ->
  exists d rest,
    skipn q s = d ++ rest /\ is_heading d /\ e = q + length d /\
    digits_run rest = 0 /\ rest = skipn e s.
Proof.
  unfold RegExpExec.
  destruct (heading_match (skipn q s)) as [n|] eqn:E; [|discriminate].
  intros H; inversion H; subst e; clear H.
  destruct (heading_match_Some _ _ E) as (d & rest & Hs & Hd & Hn & Hr).
  exists d, rest. subst n. repeat split; auto.
  rewrite Nat.add_comm, <- skipn_skipn, Hs.
  rewrite skipn_app, skipn_all, Nat.sub_diag. reflexivity.
Qed.

End Matcher.

Section Split.

Lemma substring_to_end s p : substring s p (length s) = skipn p s.
Proof.
  unfold substring. apply firstn_all2. rewrite length_skipn. lia.
Qed.

Lemma split_loop_SplitOn s p q A :
  p <= q <= length s ->
  (forall i, p <= i < q -> ~ heading_at s i) ->
  exists ps, split_loop s p q A = A ++ ps /\ SplitOn (skipn p s) ps.
Proof.
  funelim (split_loop s p q A); intros Hpq Hnone.
  - (* q = size: the last piece *)
    pose proof (proj1 (Nat.ltb_ge _ _) Hq) as Hq'.
    exists [skipn p s]. rewrite substring_to_end. split; [reflexivity|].
    apply SplitOn_done. intros i Hi. apply heading_at_skipn in Hi.
    destruct (Nat.lt_ge_cases (p + i) q) as [Hlt|Hge].
    + apply (Hnone (p + i)); [lia|assumption].
    + apply heading_at_bound in Hi. lia.
  - (* no match at q *)
    pose proof (proj1 (Nat.ltb_lt _ _) Hq) as Hq'.
    apply H; [lia|]. intros i Hi.
    destruct (Nat.eq_dec i q) as [->|Hne]; [|apply Hnone; lia].
    apply (RegExpExec_None _ _ Hz).
  - (* a match that ends at p: the pattern never matches the empty string *)
    pose proof (proj1 (Nat.ltb_lt _ _) Hq) as Hq'. pose proof (proj1 (Nat.eqb_eq _ _) He) as He'.
    pose proof (RegExpExec_bounds _ _ _ Hz). lia.
  - (* a match at q *)
    pose proof (proj1 (Nat.ltb_lt _ _) Hq) as Hq'.
    destruct (RegExpExec_Some _ _ _ Hz) as (d & rest & Hs & Hd & Hed & Hr & Hrest).
    pose proof (RegExpExec_bounds _ _ _ Hz) as (Hlo & Hhi). specialize (Hhi Hq').
    rewrite Nat.min_l in * by lia.
    destruct (H (conj (Nat.le_refl e) Hhi)) as (ps & Hps & Hsplit); [intros i Hi; lia|].
    exists (substring s p q :: ps). split.
    + rewrite Hps, <- app_assoc. reflexivity.
    + assert (Hp : skipn p s = substring s p q ++ d ++ rest).
      { unfold substring. rewrite <- Hs.
        replace q with ((q - p) + p) at 2 by lia.
        rewrite <- skipn_skipn. symmetry. apply firstn_skipn. }
      assert (Hlen : length (substring s p q) = q - p).
      { unfold substring. rewrite length_firstn, length_skipn. lia. }
      rewrite Hp, <- Hrest in *. apply SplitOn_next; auto.
      intros i Hi. rewrite <- Hp, heading_at_skipn. apply Hnone. lia.
Qed.

Theorem split_SplitOn s : SplitOn s (split s).
Proof.
  destruct s as [|c s]; simpl.
  - apply SplitOn_done. intros i Hi. apply heading_at_bound in Hi. simpl in Hi. lia.
  - destruct (split_loop_SplitOn (c :: s) 0 0 []) as (ps & Hps & Hsplit).
    + simpl; lia.
    + intros i Hi; lia.
    + rewrite Hps. exact Hsplit.
Qed.

End Split.

Section Segmenter.

Lemma has_heading_false s :
  has_heading s = false <-> (forall i, ~ heading_at s i).
Proof.
  unfold has_heading. split.
  - intros H i Hi.
    pose proof (heading_at_bound _ _ Hi) as Hb.
    assert (Hin : In i (seq 0 (length s))) by (apply in_seq; lia).
    assert (Hex : existsb (fun i => match heading_match (skipn i s) with
                                    | Some _ => true | None => false end)
                          (seq 0 (length s)) = true).
    { apply existsb_exists. exists i. split; [assumption|].
      destruct (heading_match (skipn i s)) eqn:E; [reflexivity|].
      apply heading_match_None in E. exfalso. apply E.
      apply heading_at_skipn. now rewrite Nat.add_0_r. }
    congruence.
  - intros H. apply not_true_is_false. intros Hex.
    apply existsb_exists in Hex. destruct Hex as (i & _ & Hi).
    destruct (heading_match (skipn i s)) eqn:E; [|discriminate].
    apply (H i). destruct (heading_match_Some _ _ E) as (d & rest & Hs & Hd & _).
    exists d, rest. auto.
Qed.

Lemma occurs_in_heading_at e : occurs_in e <-> exists i, heading_at e i.
Proof.
  split.
  - intros (a & d & b & -> & Hd). exists (length a), d, b. split; [|assumption].
    rewrite skipn_app, skipn_all, Nat.sub_diag. reflexivity.
  - intros (i & d & rest & Hs & Hd). exists (firstn i e), d, rest.
    split; [|assumption]. rewrite <- Hs. symmetry. apply firstn_skipn.
Qed.

Lemma has_heading_occurs e : has_heading e = false <-> ~ occurs_in e.
Proof.
  rewrite has_heading_false, occurs_in_heading_at. split.
  - intros H (i & Hi). exact (H i Hi).
  - intros H i Hi. apply H. exists i. exact Hi.
Qed.

(** *** The relation [SplitOn] determines the pieces *)

Lemma app_inv_length {A : Type} (a a' b b' : list A) :
  length a = length a' -> a ++ b = a' ++ b' -> a = a' /\ b = b'.
Proof.
  revert a'; induction a as [|x a IH]; intros [|x' a'] Hl E;
    simpl in *; try discriminate; auto.
  inversion E; subst. destruct (IH a') as (-> & ->); auto.
Qed.

Lemma heading_unique d rest d' rest' :
  d ++ rest = d' ++ rest' ->
  is_heading d -> digits_run rest = 0 ->
  is_heading d' -> digits_run rest' = 0 ->
  d = d' /\ rest = rest'.
Proof.
  intros E (w & ds & -> & Hw & _ & Hds) Hr (w' & ds' & -> & Hw' & _ & Hds') Hr'.
  rewrite <- !app_assoc in E.
  assert (Hlen : length w = length w').
  { rewrite <- (Forall2_length_eq _ _ _ Hw), <- (Forall2_length_eq _ _ _ Hw').
    reflexivity. }
  destruct (app_inv_length _ _ _ _ Hlen E) as (-> & E').
  assert (Hn : length ds = length ds').
  { apply (f_equal digits_run) in E'.
    rewrite !digits_run_app, Hr, Hr' in E' by assumption. lia. }
  destruct (app_inv_length _ _ _ _ Hn E') as (-> & ->). auto.
Qed.

Lemma SplitOn_functional s ps ps' :
  SplitOn s ps -> SplitOn s ps' -> ps = ps'.
Proof.
  intros H; revert ps'.
  induction H as [s Hno | pre d rest ps Hno Hd Hr Hps IH]; intros ps' H'.
  - inversion H' as [s' Hno' | pre' d' rest' qs Hno' Hd' Hr' Hqs]; subst; auto.
    exfalso. apply (Hno (length pre')). exists d', rest'. split; [|assumption].
    rewrite skipn_app, skipn_all, Nat.sub_diag. reflexivity.
  - assert (Hat : heading_at (pre ++ d ++ rest) (length pre)).
    { exists d, rest. split; [|assumption].
      rewrite skipn_app, skipn_all, Nat.sub_diag. reflexivity. }
    inversion H' as [s' Hno' | pre' d' rest' qs Hno' Hd' Hr' Hqs E]; subst.
    + exfalso. exact (Hno' _ Hat).
    + assert (Hat' : heading_at (pre ++ d ++ rest) (length pre')).
      { rewrite <- E. exists d', rest'. split; [|assumption].
        rewrite skipn_app, skipn_all, Nat.sub_diag. reflexivity. }
      assert (Hl : length pre' = length pre).
      { destruct (Nat.lt_trichotomy (length pre') (length pre)) as [Hlt|[Heq|Hgt]];
          [exfalso; exact (Hno _ Hlt Hat') | exact Heq |].
        exfalso. rewrite <- E in Hat. exact (Hno' _ Hgt Hat). }
      destruct (app_inv_length _ _ _ _ Hl E) as (-> & E').
      destruct (heading_unique _ _ _ _ E' Hd' Hr' Hd Hr) as (-> & ->).
      f_equal. apply IH. assumption.
Qed.

(** *** [trim] and blank strings *)

Lemma trimStart_nil s : trimStart s = [] <-> is_blank s = true.
Proof.
  unfold is_blank. induction s as [|c s IH]; simpl; [tauto|].
  destruct (is_white_space c); simpl; [exact IH|].
  split; discriminate.
Qed.

Lemma is_blank_trimStart s : is_blank (trimStart s) = is_blank s.
Proof.
  unfold is_blank. induction s as [|c s IH]; simpl; [reflexivity|].
  destruct (is_white_space c) eqn:Hc; simpl; [exact IH|].
  now rewrite Hc.
Qed.

Lemma is_blank_rev s : is_blank (rev s) = is_blank s.
Proof.
  unfold is_blank. induction s as [|c s IH]; simpl; [reflexivity|].
  rewrite forallb_app, IH. simpl. rewrite andb_true_r. apply andb_comm.
Qed.

Lemma trim_nil s : trim s = [] <-> is_blank s = true.
Proof.
  unfold trim, trimEnd.
  rewrite <- (is_blank_trimStart s), <- (is_blank_rev (trimStart s)),
    <- trimStart_nil.
  split; intros H.
  - apply (f_equal (@rev N)) in H. now rewrite rev_involutive in H.
  - now rewrite H.
Qed.

Lemma is_blank_false s :
  is_blank s = false <-> exists c, In c s /\ is_white_space c = false.
Proof.
  unfold is_blank. induction s as [|x s IH]; simpl.
  - split; [discriminate|]. intros (c & [] & _).
  - rewrite andb_false_iff, IH. split.
    + intros [H|(c & Hc & Hw)]; [exists x; auto | exists c; auto].
    + intros (c & [->|Hc] & Hw); [left; assumption | right; eauto].
Qed.

Lemma keep_chapter_blank c :
  negb (jsstring_eqb (trim c) []) = negb (is_blank c).
Proof.
  f_equal. unfold jsstring_eqb.
  destruct (list_eq_dec N.eq_dec (trim c) []) as [E|E].
  - symmetry. now apply trim_nil.
  - symmetry. apply not_true_is_false. intros H. apply E. now apply trim_nil.
Qed.

Lemma segmentIntoChapters_filter text :
  segmentIntoChapters text = filter (fun c => negb (is_blank c)) (split text).
Proof.
  unfold segmentIntoChapters. apply filter_ext. exact keep_chapter_blank.
Qed.

(** *** Pieces of a split, in the text *)

Lemma in_order_within_app es a b :
  in_order_within es b -> in_order_within es (a ++ b).
Proof.
  intros H. inversion H as [|a0 e b0 es0 H0]; subst; [constructor|].
  rewrite app_assoc. now constructor.
Qed.

Lemma SplitOn_in_order f s ps :
  SplitOn s ps -> in_order_within (filter f ps) s.
Proof.
  induction 1 as [s Hno | pre d rest ps Hno Hd Hr Hps IH]; simpl.
  - destruct (f s); [|constructor].
    rewrite <- (app_nil_r s) at 2. apply (iow_cons [] s []). constructor.
  - destruct (f pre).
    + apply (iow_cons [] pre (d ++ rest)). now apply in_order_within_app.
    + rewrite app_assoc. now apply in_order_within_app.
Qed.

Lemma SplitOn_no_heading s ps :
  SplitOn s ps -> Forall (fun e => ~ occurs_in e) ps.
Proof.
  induction 1 as [s Hno | pre d rest ps Hno Hd Hr Hps IH].
  - constructor; [|constructor].
    rewrite occurs_in_heading_at. intros (i & Hi). exact (Hno i Hi).
  - constructor; [|exact IH].
    intros (a & d0 & b & -> & Hd0).
    apply (Hno (length a)).
    + pose proof (heading_length _ Hd0). rewrite !length_app. lia.
    + exists d0, (b ++ d ++ rest). split; [|assumption].
      rewrite <- !app_assoc, skipn_app, skipn_all, Nat.sub_diag. reflexivity.
Qed.

Lemma in_order_within_substrings es s :
  in_order_within es s -> Forall (fun e => exists a b, s = a ++ e ++ b) es.
Proof.
  induction 1 as [|a e b es H IH]; constructor.
  - exists a, b. reflexivity.
  - apply Forall_forall. intros x Hx.
    rewrite Forall_forall in IH. destruct (IH x Hx) as (a' & b' & ->).
    exists (a ++ e ++ a'), b'. now rewrite <- !app_assoc.
Qed.

Lemma Forall_filter {A : Type} (P : A -> Prop) f (l : list A) :
  Forall P l -> Forall P (filter f l).
Proof.
  rewrite !Forall_forall. intros H x Hx. apply filter_In in Hx. apply H, Hx.
Qed.

Lemma split_no_heading text : has_heading text = false -> split text = [text].
Proof.
  intros H. apply (SplitOn_functional text); [apply split_SplitOn|].
  apply SplitOn_done. now apply has_heading_false.
Qed.

End Segmenter.

(** ** The claims about the segmenter *)

(** C1, as stated, fails on the example it gives: the chapters of
    "Chapter 1\nfoo\nChapter 2\nbar" are returned with their line breaks,
    not as "foo" and "bar", which is what the segmenter of the
    specification's words gives.  And a heading with a tab in the place of
    the space is a delimiter for the specification, not for the code. *)
Lemma C1_example_chapters_not_trimmed :
  segmentIntoChapters example_text =
    [ [LF] ++ str "foo" ++ [LF]; [LF] ++ str "bar" ] /\
  specified_segmenter example_text = [ str "foo"; str "bar" ] /\
  segmentIntoChapters example_text <> [ str "foo"; str "bar" ] /\
  specified_segmenter (str "Chapter" ++ [9%N] ++ str "1 foo") = [ str "foo" ] /\
  segmentIntoChapters (str "Chapter" ++ [9%N] ++ str "1 foo") =
    [ str "Chapter" ++ [9%N] ++ str "1 foo" ].
Proof. repeat split; vm_compute; (reflexivity || discriminate). Qed.

(** C1, amended: for every text the segmenter returns the pieces between the
    headings ("Chapter" in any letter case, one space, one or more digits,
    found from left to right and taken with all their digits), the
    headings dropped, the pieces that are empty or white space only removed,
    and the other pieces as they are, not trimmed; the pieces are determined
    by the text; the example yields "\nfoo\n" and "\nbar". *)
Theorem C1_segment_is_filtered_split :
  (forall text, exists pieces,
      SplitOn text pieces /\
      (forall ps, SplitOn text ps -> ps = pieces) /\
      segmentIntoChapters text = filter (fun c => negb (is_blank c)) pieces) /\
  segmentIntoChapters example_text =
    [ [LF] ++ str "foo" ++ [LF]; [LF] ++ str "bar" ].
Proof.
  split; [|vm_compute; reflexivity].
  intros text. exists (split text). split; [apply split_SplitOn|]. split.
  - intros ps Hps. exact (SplitOn_functional _ _ _ Hps (split_SplitOn text)).
  - apply segmentIntoChapters_filter.
Qed.

(** C2, as stated, fails: the empty text has no chapter at all, and a text
    without a heading is returned as it is, not trimmed. *)
Lemma C2_empty_text_no_chapter :
  length (segmentIntoChapters []) = 0 /\
  has_heading (str " x") = false /\
  segmentIntoChapters (str " x") = [ str " x" ] /\
  segmentIntoChapters (str " x") <> [ trim (str " x") ].
Proof. repeat split; vm_compute; (reflexivity || discriminate). Qed.

(** C2, amended: for a text in which no heading matches anywhere, the
    segmenter returns exactly one chapter, the whole text as it is (not
    trimmed), when the text has a character that is not white space, and no
    chapter when the text is empty or white space only. *)
Theorem C2_no_heading_whole_text text :
  has_heading text = false ->
  segmentIntoChapters text = if is_blank text then [] else [text].
Proof.
  intros H. rewrite segmentIntoChapters_filter, (split_no_heading _ H).
  simpl. destruct (is_blank text); reflexivity.
Qed.

(** C2, amended, on a text without a heading. *)
Lemma C2_no_heading_whole_text_witness :
  has_heading (str "one two") = false /\
  segmentIntoChapters (str "one two") = [ str "one two" ].
Proof.
  split; [reflexivity|].
  exact (C2_no_heading_whole_text (str "one two") eq_refl).
Defined.

(** C8: no element of the segmenter's output is empty or white space only;
    a piece of the split is in the output exactly when it does not trim to
    the empty string. *)
Theorem C8_no_blank_chapter text :
  Forall (fun c => c <> [] /\ is_blank c = false /\ trim c <> [])
         (segmentIntoChapters text) /\
  Forall (fun c => In c (segmentIntoChapters text) <-> trim c <> [])
         (split text).
Proof.
  rewrite segmentIntoChapters_filter. split; apply Forall_forall; intros c Hc.
  - apply filter_In in Hc. destruct Hc as (_ & Hc).
    apply negb_true_iff in Hc. split; [|split; [assumption|]].
    + intros ->. discriminate.
    + rewrite trim_nil. congruence.
  - rewrite filter_In, negb_true_iff, trim_nil. split.
    + intros (_ & H). congruence.
    + intros H. split; [assumption|]. now apply not_true_is_false.
Qed.

(** The split on some small texts, as [String.prototype.split] answers. *)
Example split_examples :
  split (str "") = [ [] ] /\
  split (str "abc") = [ str "abc" ] /\
  split (str "Chapter 1") = [ []; [] ] /\
  split (str "Chapter 12abc") = [ []; str "abc" ] /\
  split (str "xchapter 1yCHAPTER 22z") = [ str "x"; str "y"; str "z" ] /\
  split (str "Chapter  1") = [ str "Chapter  1" ] /\
  split (str "Chapter one") = [ str "Chapter one" ].
Proof. repeat split; vm_compute; reflexivity. Qed.

(** A heading followed by white space only leaves no chapter. *)
Example heading_then_blank :
  split (str "Chapter 7  ") = [ []; str "  " ] /\
  segmentIntoChapters (str "Chapter 7  ") = [].
Proof. split; vm_compute; reflexivity. Qed.

(** C10: every element of the output is a contiguous substring of the
    input, the elements lie in the input one after the other in their
    order, and none contains a heading ("Chapter" in any letter case, one
    space, one or more digits). *)
Theorem C10_chapters_in_order_without_heading text :
  Forall (fun e => exists a b, text = a ++ e ++ b) (segmentIntoChapters text) /\
  in_order_within (segmentIntoChapters text) text /\
  Forall (fun e => ~ occurs_in e /\ has_heading e = false)
         (segmentIntoChapters text).
Proof.
  pose proof (split_SplitOn text) as Hs.
  assert (Ho : in_order_within (segmentIntoChapters text) text)
    by (apply SplitOn_in_order; exact Hs).
  split; [exact (in_order_within_substrings _ _ Ho)|]. split; [exact Ho|].
  apply Forall_filter. apply SplitOn_no_heading in Hs.
  revert Hs. apply Forall_impl. intros e He. split; [exact He|].
  now apply has_heading_occurs.
Qed.

(** * Properties of the upload pipeline *)

Section PipelineProperties.

Variable number : Type.
Variable JSON_parse : jsstring -> option (json number).
Variable pdfParse : buffer -> option jsstring.
Variable sv : services number.

#[local] Abbreviation handler := (upload_handler JSON_parse pdfParse sv).

Lemma world_after_0 (w : world number) chapters results :
  world_after w chapters results 0 = w.
Proof.
  destruct w. unfold world_after, rows_upto, sent, loop_lines. simpl.
  now rewrite !app_nil_r.
Qed.

Lemma sent_all chapters : sent chapters (length chapters) = chapters.
Proof.
  unfold sent. apply (nth_ext _ _ [] []).
  - now rewrite length_map, length_seq.
  - intros n Hn. rewrite length_map, length_seq in Hn.
    rewrite (nth_indep _ [] (nth (length chapters) chapters []))
      by now rewrite length_map, length_seq.
    rewrite (map_nth (fun i => nth i chapters [])), seq_nth by assumption.
    reflexivity.
Qed.

Lemma rows_upto_numbers (results : nat -> json number) k :
  map chapter_number (rows_upto results k) = seq 1 k.
Proof.
  unfold rows_upto. rewrite map_map. simpl.
  rewrite <- seq_shift. apply map_ext. intros i. lia.
Qed.

Lemma rows_upto_nth (results : nat -> json number) k i :
  i < k -> nth_error (rows_upto results k) i = Some (row_of (i + 1) (results i)).
Proof.
  intros Hi. unfold rows_upto.
  rewrite nth_error_map, nth_error_seq.
  destruct (Nat.ltb_spec i k); [reflexivity|lia].
Qed.

(** The loop, one turn at a time. *)
Lemma for_loop_S n from (body : nat -> M number unit) w :
  for_loop (S n) from body w =
  match body from w with
  | (Return _, w') => for_loop n (S from) body w'
  | (Throw e, w') => (Throw e, w')
  end.
Proof. reflexivity. Qed.

Lemma for_loop_add a b from (body : nat -> M number unit) w :
  for_loop (a + b) from body w =
  match for_loop a from body w with
  | (Return _, w') => for_loop b (from + a) body w'
  | (Throw e, w') => (Throw e, w')
  end.
Proof.
  revert from w; induction a as [|a IH]; intros from w.
  - simpl. unfold ret. now rewrite Nat.add_0_r.
  - change (S a + b) with (S (a + b)). rewrite !for_loop_S.
    destruct (body from w) as [[[]|e] w']; [|reflexivity].
    rewrite IH. now rewrite Nat.add_succ_comm.
Qed.

Lemma for_loop_snoc n from (body : nat -> M number unit) w :
  for_loop (S n) from body w =
  match for_loop n from body w with
  | (Return _, w') => body (from + n) w'
  | (Throw e, w') => (Throw e, w')
  end.
Proof.
  replace (S n) with (n + 1) by lia. rewrite for_loop_add.
  destruct (for_loop n from body w) as [[[]|e] w']; [|reflexivity].
  rewrite for_loop_S. simpl. unfold ret.
  destruct (body (from + n) w') as [[[]|e] w'']; reflexivity.
Qed.

Lemma rows_upto_S (results : nat -> json number) k :
  rows_upto results (S k) = rows_upto results k ++ [row_of (k + 1) (results k)].
Proof. unfold rows_upto. now rewrite seq_S, map_app. Qed.

Lemma sent_S chapters k : sent chapters (S k) = sent chapters k ++ [nth k chapters []].
Proof. unfold sent. now rewrite seq_S, map_app. Qed.

Lemma loop_lines_S k :
  loop_lines (S k) = loop_lines k ++ [LogProcessing (k + 1); LogStored (k + 1)].
Proof.
  unfold loop_lines. rewrite seq_S, flat_map_app. reflexivity.
Qed.

Lemma destructure_ok (v : json number) w :
  v <> JNull -> destructure v w = (Return v, w).
Proof. intros Hv. destruct v; try reflexivity. congruence. Qed.

(** A chapter that goes through: one more call, one more row. *)
Lemma process_chapter_ok w chapters results k :
  chapter_ok JSON_parse sv w chapters results k ->
  process_chapter JSON_parse sv chapters k (world_after w chapters results k) =
  (Return tt, world_after w chapters results (S k)).
Proof.
  intros (content & Hc & Hp & Hn & Hi).
  unfold process_chapter, bind at 1 2.
  unfold getSummaryFromDeepSeek, chat_completion, bind at 1, console_log,
    console_write, add_line.
  cbn [world_after files summaries completion_calls unlink_calls console fst snd].
  rewrite Hc, Hp. unfold ret at 1, bind at 1.
  rewrite (destructure_ok _ _ Hn).
  unfold storeSummaryInSupabase, supabase_insert, bind at 1 2.
  cbn [files summaries completion_calls unlink_calls console].
  fold (row_of (k + 1) (results k)). rewrite Hi.
  unfold ret at 1, console_write, add_line.
  cbn [files summaries completion_calls unlink_calls console].
  unfold world_after. rewrite rows_upto_S, sent_S, loop_lines_S.
  rewrite <- !app_assoc. reflexivity.
Qed.

Lemma for_loop_ok w chapters results k :
  (forall j, j < k -> chapter_ok JSON_parse sv w chapters results j) ->
  for_loop k 0 (process_chapter JSON_parse sv chapters) w =
  (Return tt, world_after w chapters results k).
Proof.
  induction k as [|k IH]; intros Hok.
  - simpl. unfold ret. now rewrite world_after_0.
  - rewrite for_loop_snoc, IH by (intros j Hj; apply Hok; lia).
    simpl. apply process_chapter_ok, Hok. lia.
Qed.

(** *** The handler around the loop *)

Lemma handler_after_loop req w p buf text :
  file req = Some p ->
  lookup_file p (files w) = Some buf ->
  pdfParse buf = Some text ->
  handler req w =
  match for_loop (length (segmentIntoChapters text)) 0
          (process_chapter JSON_parse sv (segmentIntoChapters text)) w with
  | (Return _, w') =>
      match fs_unlink sv p w' with
      | (Return _, w'') => (Return (200, BookProcessed), w'')
      | (Throw e, w'') => (Return (500, ProcessingError), add_line w'' (ErrCaught e))
      end
  | (Throw e, w') => (Return (500, ProcessingError), add_line w' (ErrCaught e))
  end.
Proof.
  intros Hf Hb Ht.
  unfold upload_handler, try_catch, extractTextFromPDF, fs_readFile.
  rewrite Hf. unfold bind at 1. unfold ret at 1.
  unfold bind at 1. unfold bind at 1. cbv beta. rewrite Hb. cbv iota beta.
  rewrite Ht. unfold ret at 1. unfold bind at 1.
  destruct (for_loop _ 0 _ w) as [[[]|e] w']; [|reflexivity].
  unfold bind at 1.
  destruct (fs_unlink sv p w') as [[[]|e] w'']; reflexivity.
Qed.

(** The loop stops at the first chapter whose turn throws. *)
Lemma for_loop_throws w chapters results k n e we :
  k < n ->
  (forall j, j < k -> chapter_ok JSON_parse sv w chapters results j) ->
  process_chapter JSON_parse sv chapters k (world_after w chapters results k)
    = (Throw e, we) ->
  for_loop n 0 (process_chapter JSON_parse sv chapters) w = (Throw e, we).
Proof.
  intros Hk Hok He.
  replace n with (k + S (n - S k)) by lia.
  rewrite for_loop_add, (for_loop_ok _ _ results) by assumption.
  rewrite for_loop_S. simpl. now rewrite He.
Qed.

Lemma handler_chapter_throws req w p buf text results k e we :
  file req = Some p ->
  lookup_file p (files w) = Some buf ->
  pdfParse buf = Some text ->
  k < length (segmentIntoChapters text) ->
  (forall j, j < k ->
     chapter_ok JSON_parse sv w (segmentIntoChapters text) results j) ->
  process_chapter JSON_parse sv (segmentIntoChapters text) k
    (world_after w (segmentIntoChapters text) results k) = (Throw e, we) ->
  handler req w = (Return (500, ProcessingError), add_line we (ErrCaught e)).
Proof.
  intros Hf Hb Ht Hk Hok He.
  rewrite (handler_after_loop _ _ _ _ _ Hf Hb Ht).
  now rewrite (for_loop_throws _ _ results k _ e we Hk Hok He).
Qed.

Lemma process_chapter_unparseable w chapters results k content :
  chapter_unparseable JSON_parse sv w chapters k content ->
  process_chapter JSON_parse sv chapters k (world_after w chapters results k) =
  (Throw ParseFailure,
   world_failed w chapters results k
     [LogProcessing (k + 1); ErrParsing; ErrResponseText (cleanResponse content)]).
Proof.
  intros (Hc & Hp).
  unfold process_chapter, bind at 1 2.
  unfold getSummaryFromDeepSeek, chat_completion, bind at 1, console_log,
    console_write, add_line.
  cbn [world_after files summaries completion_calls unlink_calls console fst snd].
  rewrite Hc, Hp.
  unfold bind, console_error, console_write, add_line, throw.
  cbn [files summaries completion_calls unlink_calls console].
  unfold world_failed. rewrite sent_S, <- !app_assoc. reflexivity.
Qed.

Lemma process_chapter_fails w chapters results k :
  chapter_fails JSON_parse sv w chapters results k ->
  exists e lines,
    process_chapter JSON_parse sv chapters k (world_after w chapters results k) =
    (Throw e, world_failed w chapters results k lines).
Proof.
  unfold chapter_fails. intros H.
  unfold process_chapter, bind at 1 2.
  unfold getSummaryFromDeepSeek, chat_completion, bind at 1, console_log,
    console_write, add_line.
  cbn [world_after files summaries completion_calls unlink_calls console fst snd].
  unfold world_failed. rewrite sent_S.
  destruct (complete sv _ _) as [|[content|]].
  - exists CompletionError, [LogProcessing (k + 1)].
    now rewrite <- !app_assoc.
  - destruct (JSON_parse (cleanResponse content)) as [v|].
    + assert (Hv : v = JNull \/ v <> JNull)
        by (destruct v; (now left) || (right; discriminate)).
      destruct Hv as [->|Hv].
      * exists TypeError, [LogProcessing (k + 1)].
        unfold ret, bind, destructure, throw. now rewrite <- !app_assoc.
      * assert (Hi : insert_error sv (summaries w ++ rows_upto results k)
                       (row_of (k + 1) v) <> None)
          by (destruct v; (exact H || congruence)).
        destruct (insert_error sv (summaries w ++ rows_upto results k)
                    (row_of (k + 1) v)) as [message|] eqn:Hm; [|congruence].
        exists (SupabaseError message), [LogProcessing (k + 1); ErrSupabase message].
        unfold ret at 1, bind at 1. rewrite (destructure_ok _ _ Hv).
        unfold storeSummaryInSupabase, supabase_insert, bind at 1 2.
        cbn [files summaries completion_calls unlink_calls console].
        fold (row_of (k + 1) v). rewrite Hm.
        unfold bind, console_error, console_write, add_line, throw.
        cbn [files summaries completion_calls unlink_calls console].
        now rewrite <- !app_assoc.
    + exists ParseFailure,
        [LogProcessing (k + 1); ErrParsing; ErrResponseText (cleanResponse content)].
      unfold bind, console_error, console_write, add_line, throw.
      cbn [files summaries completion_calls unlink_calls console].
      now rewrite <- !app_assoc.
  - exists TypeError, [LogProcessing (k + 1)].
    unfold ret, bind, throw. now rewrite <- !app_assoc.
Qed.

Lemma lookup_file_world_after (w : world number) chapters results k p :
  lookup_file p (files (world_after w chapters results k)) = lookup_file p (files w).
Proof. reflexivity. Qed.

(** Before the loop: no file in the request, a file that cannot be read, a
    PDF that cannot be parsed.  The catch block answers; nothing else
    happens. *)
Lemma handler_extraction_fails req w :
  match file req with
  | None => True
  | Some p =>
      match lookup_file p (files w) with
      | None => True
      | Some buf => pdfParse buf = None
      end
  end ->
  exists e, handler req w = (Return (500, ProcessingError), add_line w (ErrCaught e)).
Proof.
  unfold upload_handler, try_catch, extractTextFromPDF, fs_readFile.
  destruct (file req) as [p|]; [|intros _; exists TypeError; reflexivity].
  unfold bind at 1. unfold ret at 1. unfold bind at 1. unfold bind at 1.
  destruct (lookup_file p (files w)) as [buf|];
    [|intros _; exists ReadFileError; reflexivity].
  intros ->. exists PdfParseError. reflexivity.
Qed.

(** The answer of the sample is cleaned to its JSON text. *)
Example cleanResponse_sample :
  cleanResponse Sample.fenced_answer = Sample.answer_text.
Proof. vm_compute. reflexivity. Qed.

(** *** The claims about the handler, for any parser, extractor and services *)

Section Run.

Variables (req : request) (w : world number) (p : path) (buf : buffer)
  (text : jsstring) (results : nat -> json number).

Hypothesis Hfile : file req = Some p.
Hypothesis Hread : lookup_file p (files w) = Some buf.
Hypothesis Htext : pdfParse buf = Some text.

#[local] Abbreviation chapters := (segmentIntoChapters text).

(** What the handler does once every chapter went through. *)
Lemma handler_all_ok :
  (forall j, j < length chapters -> chapter_ok JSON_parse sv w chapters results j) ->
  handler req w =
  let w' := world_after w chapters results (length chapters) in
  if unlink_fails sv p then
    (Return (500, ProcessingError),
     {| files := files w;
        summaries := summaries w';
        completion_calls := completion_calls w';
        unlink_calls := unlink_calls w ++ [p];
        console := console w' ++ [ErrCaught UnlinkError] |})
  else
    (Return (200, BookProcessed),
     {| files := remove_file p (files w);
        summaries := summaries w';
        completion_calls := completion_calls w';
        unlink_calls := unlink_calls w ++ [p];
        console := console w' |}).
Proof.
  intros Hok.
  rewrite (handler_after_loop _ _ _ _ _ Hfile Hread Htext).
  rewrite (for_loop_ok _ _ results) by assumption.
  unfold fs_unlink. rewrite lookup_file_world_after, Hread.
  destruct (unlink_fails sv p); reflexivity.
Qed.

(** C4: when the answer for a chapter is, once the fences are stripped, not
    valid JSON, the parse error is thrown on ("Failed to parse API
    response."), the request ends with the error response (500), no row is
    inserted for that chapter, and no later chapter is sent to the endpoint
    or inserted: the table holds the rows of the chapters before it and the
    endpoint has seen the chapters up to it. *)
Theorem C4_unparseable_answer_aborts_request k content :
  k < length chapters ->
  (forall j, j < k -> chapter_ok JSON_parse sv w chapters results j) ->
  chapter_unparseable JSON_parse sv w chapters k content ->
  handler req w =
  (Return (500, ProcessingError),
   {| files := files w;
      summaries := summaries w ++ rows_upto results k;
      completion_calls := completion_calls w ++ sent chapters (S k);
      unlink_calls := unlink_calls w;
      console := console w ++ loop_lines k ++
                 [LogProcessing (k + 1); ErrParsing;
                  ErrResponseText (cleanResponse content);
                  ErrCaught ParseFailure] |}).
Proof.
  intros Hk Hok Hbad.
  rewrite (handler_chapter_throws _ _ _ _ _ results k _ _ Hfile Hread Htext Hk Hok
             (process_chapter_unparseable _ _ results _ _ Hbad)).
  unfold add_line, world_failed.
  cbn [files summaries completion_calls unlink_calls console].
  now rewrite <- !app_assoc.
Qed.

(** C5: when segmentation yields N chapters and each of them is summarized
    and stored, exactly N rows are inserted, after the rows already there,
    with the chapter numbers 1..N in that order, and the summary, the five
    sub-scores and the overall score of each row are the properties of the
    parsed result of its chapter, as they are. *)
Theorem C5_successful_run_inserts_one_row_per_chapter :
  (forall j, j < length chapters -> chapter_ok JSON_parse sv w chapters results j) ->
  exists rows,
    summaries (snd (handler req w)) = summaries w ++ rows /\
    length rows = length chapters /\
    map chapter_number rows = seq 1 (length chapters) /\
    (forall i, i < length chapters ->
       nth_error rows i =
       Some {| chapter_number := i + 1;
               summary := get_property (results i) (str "summary");
               clarity_score := get_property (results i) (str "clarity_score");
               cohesion_score := get_property (results i) (str "cohesion_score");
               coverage_score := get_property (results i) (str "coverage_score");
               granularity_score := get_property (results i) (str "granularity_score");
               storytelling_score := get_property (results i) (str "storytelling_score");
               overall_score := get_property (results i) (str "overall_score") |}).
Proof.
  intros Hok. exists (rows_upto results (length chapters)).
  rewrite (handler_all_ok Hok). split; [|split; [|split]].
  - cbv zeta. destruct (unlink_fails sv p); reflexivity.
  - unfold rows_upto. now rewrite length_map, length_seq.
  - apply rows_upto_numbers.
  - intros i Hi. now rewrite rows_upto_nth.
Qed.

(** C6: when the request fails at the chapter of index [k] (its
    summarization or its insert), the rows of the chapters before it stay in
    the table, no row is added for it or for a later chapter, no chapter
    after it is sent to the endpoint, and the response is the error (500). *)
Theorem C6_failure_keeps_earlier_rows_and_stops k :
  k < length chapters ->
  (forall j, j < k -> chapter_ok JSON_parse sv w chapters results j) ->
  chapter_fails JSON_parse sv w chapters results k ->
  exists e lines,
    handler req w =
    (Return (500, ProcessingError),
     {| files := files w;
        summaries := summaries w ++ rows_upto results k;
        completion_calls := completion_calls w ++ sent chapters (S k);
        unlink_calls := unlink_calls w;
        console := console w ++ loop_lines k ++ lines ++ [ErrCaught e] |}).
Proof.
  intros Hk Hok Hfail.
  destruct (process_chapter_fails _ _ _ _ Hfail) as (e & lines & He).
  exists e, lines.
  rewrite (handler_chapter_throws _ _ _ _ _ results k _ _ Hfile Hread Htext Hk Hok He).
  unfold add_line, world_failed.
  cbn [files summaries completion_calls unlink_calls console].
  now rewrite <- !app_assoc.
Qed.

(** C7, amended: when every chapter is summarized and stored, the response
    follows the deletion of the uploaded file: the confirmation (200) when
    the deletion succeeds; when it fails, the failure is logged and the
    response is the error (500).  The rows are in the table either way. *)
Theorem C7_response_follows_the_deletion :
  (forall j, j < length chapters -> chapter_ok JSON_parse sv w chapters results j) ->
  fst (handler req w) =
    Return (if unlink_fails sv p then (500, ProcessingError)
            else (200, BookProcessed)) /\
  summaries (snd (handler req w)) =
    summaries w ++ rows_upto results (length chapters) /\
  unlink_calls (snd (handler req w)) = unlink_calls w ++ [p] /\
  console (snd (handler req w)) =
    console w ++ loop_lines (length chapters) ++
    (if unlink_fails sv p then [ErrCaught UnlinkError] else []).
Proof.
  intros Hok. rewrite (handler_all_ok Hok). cbv zeta.
  destruct (unlink_fails sv p); cbn [fst snd summaries unlink_calls console world_after];
    repeat split; now rewrite <- ?app_assoc, ?app_nil_r.
Qed.

End Run.

End PipelineProperties.

(** ** The claims on the sample runs *)

Ltac sample_chapters_ok :=
  let j := fresh "j" in
  let Hj := fresh "Hj" in
  intros j Hj; destruct j as [|[|j]];
  [ exists Sample.fenced_answer;
    repeat split; (vm_compute; reflexivity) || discriminate ..
  | exfalso; change (length (segmentIntoChapters example_text)) with 2 in Hj; lia ].

Ltac first_sample_chapter_ok :=
  let j := fresh "j" in
  let Hj := fresh "Hj" in
  intros j Hj; destruct j as [|j];
  [ exists Sample.fenced_answer;
    repeat split; (vm_compute; reflexivity) || discriminate
  | exfalso; lia ].

(** C4 on the sample run whose second answer is not JSON. *)
Lemma C4_unparseable_answer_aborts_request_witness :
  upload_handler Sample.JSON_parse Sample.pdfParse Sample.second_answer_garbled
    Sample.request_book Sample.world0 =
  (Return (500, ProcessingError),
   {| files := [(Sample.upload_path, example_text)];
      summaries := [row_of 1 Sample.answer];
      completion_calls := [Sample.chapter_1; Sample.chapter_2];
      unlink_calls := [];
      console := [LogProcessing 1; LogStored 1; LogProcessing 2; ErrParsing;
                  ErrResponseText (str "Sorry, I cannot do that.");
                  ErrCaught ParseFailure] |}).
Proof.
  apply (C4_unparseable_answer_aborts_request
           N Sample.JSON_parse Sample.pdfParse Sample.second_answer_garbled
           Sample.request_book Sample.world0 Sample.upload_path
           example_text example_text Sample.results
           eq_refl eq_refl eq_refl 1 (str "Sorry, I cannot do that.")).
  - change (length (segmentIntoChapters example_text)) with 2. lia.
  - first_sample_chapter_ok.
  - split; vm_compute; reflexivity.
Defined.

(** C5 on the sample run where everything works: two rows, numbered 1 and
    2, with the overall score of 11 as the endpoint gave it. *)
Lemma C5_successful_run_inserts_one_row_per_chapter_witness :
  exists rows,
    summaries (snd (upload_handler Sample.JSON_parse Sample.pdfParse
                      Sample.all_fine Sample.request_book Sample.world0)) = rows /\
    length rows = 2 /\
    map chapter_number rows = [1; 2] /\
    (forall i, i < 2 ->
       nth_error rows i =
       Some {| chapter_number := i + 1;
               summary := None;
               clarity_score := None;
               cohesion_score := None;
               coverage_score := None;
               granularity_score := None;
               storytelling_score := None;
               overall_score := Some (JNumber 11%N) |}).
Proof.
  apply (C5_successful_run_inserts_one_row_per_chapter
           N Sample.JSON_parse Sample.pdfParse Sample.all_fine
           Sample.request_book Sample.world0 Sample.upload_path
           example_text example_text Sample.results
           eq_refl eq_refl eq_refl).
  sample_chapters_ok.
Defined.

(** C6 on the sample run whose second completion request is rejected. *)
Lemma C6_failure_keeps_earlier_rows_and_stops_witness :
  exists e lines,
    upload_handler Sample.JSON_parse Sample.pdfParse Sample.second_call_fails
      Sample.request_book Sample.world0 =
    (Return (500, ProcessingError),
     {| files := [(Sample.upload_path, example_text)];
        summaries := [row_of 1 Sample.answer];
        completion_calls := [Sample.chapter_1; Sample.chapter_2];
        unlink_calls := [];
        console := [LogProcessing 1; LogStored 1] ++ lines ++ [ErrCaught e] |}).
Proof.
  apply (C6_failure_keeps_earlier_rows_and_stops
           N Sample.JSON_parse Sample.pdfParse Sample.second_call_fails
           Sample.request_book Sample.world0 Sample.upload_path
           example_text example_text Sample.results
           eq_refl eq_refl eq_refl 1).
  - change (length (segmentIntoChapters example_text)) with 2. lia.
  - first_sample_chapter_ok.
  - exact I.
Defined.

(** C7, as stated, fails: every chapter is summarized and stored, the
    deletion of the uploaded file fails, and the response is the error
    (500), not the confirmation. *)
Lemma C7_failed_deletion_gives_error_response :
  let run := upload_handler Sample.JSON_parse Sample.pdfParse
               Sample.unlink_refused Sample.request_book Sample.world0 in
  map chapter_number (summaries (snd run)) = [1; 2] /\
  unlink_calls (snd run) = [Sample.upload_path] /\
  fst run = Return (500, ProcessingError) /\
  fst run <> Return (200, BookProcessed).
Proof. repeat split; vm_compute; (reflexivity || discriminate). Qed.

(** C7, amended, on the sample run where everything works. *)
Lemma C7_response_follows_the_deletion_witness :
  let run := upload_handler Sample.JSON_parse Sample.pdfParse
               Sample.all_fine Sample.request_book Sample.world0 in
  fst run = Return (200, BookProcessed) /\
  summaries (snd run) = [row_of 1 Sample.answer; row_of 2 Sample.answer] /\
  unlink_calls (snd run) = [Sample.upload_path] /\
  console (snd run) = [LogProcessing 1; LogStored 1; LogProcessing 2; LogStored 2].
Proof.
  apply (C7_response_follows_the_deletion
           N Sample.JSON_parse Sample.pdfParse Sample.all_fine
           Sample.request_book Sample.world0 Sample.upload_path
           example_text example_text Sample.results
           eq_refl eq_refl eq_refl).
  sample_chapters_ok.
Defined.

(** C3: the run of the specification's own scenario (two chapters, the
    second completion request rejected).  The response is the error, the row
    of chapter 1 is stored, and the uploaded file is still there: [fs.unlink]
    was never called.  On the run where everything works the file is
    deleted. *)
Lemma C3_uploaded_file_left_after_failure :
  let failed := upload_handler Sample.JSON_parse Sample.pdfParse
                  Sample.second_call_fails Sample.request_book Sample.world0 in
  let succeeded := upload_handler Sample.JSON_parse Sample.pdfParse
                     Sample.all_fine Sample.request_book Sample.world0 in
  fst failed = Return (500, ProcessingError) /\
  map chapter_number (summaries (snd failed)) = [1] /\
  unlink_calls (snd failed) = [] /\
  lookup_file Sample.upload_path (files (snd failed)) = Some example_text /\
  fst succeeded = Return (200, BookProcessed) /\
  unlink_calls (snd succeeded) = [Sample.upload_path] /\
  lookup_file Sample.upload_path (files (snd succeeded)) = None.
Proof. repeat split; vm_compute; reflexivity. Qed.

(** * Properties of the start of the process *)

Section Startup.

Lemma run_app p evs evs' : run p (evs ++ evs') = run (run p evs) evs'.
Proof. unfold run. apply fold_left_app. Qed.

(** An exited process handles no event. *)
Lemma run_exited p evs : exit_code p <> None -> run p evs = p.
Proof.
  intros Hp. induction evs as [|e evs IH]; [reflexivity|].
  change (run p (e :: evs)) with (run (step p e) evs).
  assert (Hs : step p e = p)
    by (unfold step; destruct (exit_code p); [reflexivity|congruence]).
  now rewrite Hs.
Qed.

(** While the read is awaited, every upload request is given to the
    handler. *)
Lemma run_requests_while_pending out n :
  run {| listening := true; check_pending := true; exit_code := None;
         accepted := 0; output := out |} (repeat UploadRequest n) =
  {| listening := true; check_pending := true; exit_code := None;
     accepted := n; output := out |}.
Proof.
  induction n as [|n IH]; [reflexivity|].
  replace (S n) with (n + 1) by lia.
  rewrite repeat_app, run_app, IH. simpl. now rewrite Nat.add_1_r.
Qed.

Lemma check_fails r :
  r <> SelectData -> exists l, checkSupabaseConnection r = ([l], false).
Proof.
  destruct r; [congruence| |]; intros _; eexists; reflexivity.
Qed.

End Startup.

(** C9, as stated, fails: the listener is bound before the read is started,
    so a request that arrives while the read is awaited is accepted, although
    the read then fails and the process exits. *)
Lemma C9_request_accepted_before_failed_check :
  listening (run boot [Listening]) = true /\
  exit_code (run boot [Listening]) = None /\
  accepted (run boot [Listening; UploadRequest]) = 1 /\
  exit_code (run boot [Listening; UploadRequest; SelectSettled SelectError])
    = Some 1.
Proof. repeat split. Qed.

(** C9, amended: if the startup read fails (an error result or a rejected
    promise), the process exits with status 1 as soon as the read has
    settled, and handles no upload request after that, whatever arrives; the
    [n] requests that arrived while the read was awaited were accepted. *)
Theorem C9_failed_check_exits (r : select_result) (n : nat) (later : list event) :
  r <> SelectData ->
  let p := run boot (Listening :: repeat UploadRequest n ++ [SelectSettled r]) in
  exit_code p = Some 1 /\
  accepted p = n /\
  run boot (Listening :: repeat UploadRequest n ++ [SelectSettled r] ++ later) = p.
Proof.
  intros Hr p.
  assert (Hp : exit_code p = Some 1 /\ accepted p = n).
  { subst p. change (Listening :: ?l) with ([Listening] ++ l).
    rewrite !run_app. change (run boot [Listening]) with
      {| listening := true; check_pending := true; exit_code := None;
         accepted := 0; output := [LogServerRunning] |}.
    rewrite run_requests_while_pending.
    destruct (check_fails r Hr) as (l & Hl).
    unfold run, fold_left, step.
    cbn [exit_code check_pending]. rewrite Hl. simpl. auto. }
  split; [apply Hp|]. split; [apply Hp|].
  rewrite app_assoc, app_comm_cons, run_app. fold p.
  apply run_exited. destruct Hp as (Hp & _). rewrite Hp. discriminate.
Qed.

(** C9, amended, on a start where two requests arrive before the read is
    rejected, and more events after. *)
Lemma C9_failed_check_exits_witness :
  let p := run boot [Listening; UploadRequest; UploadRequest; SelectSettled SelectThrows] in
  exit_code p = Some 1 /\
  accepted p = 2 /\
  run boot [Listening; UploadRequest; UploadRequest; SelectSettled SelectThrows;
            UploadRequest; SelectSettled SelectData] = p.
Proof.
  apply (C9_failed_check_exits SelectThrows 2 [UploadRequest; SelectSettled SelectData]).
  discriminate.
Defined.

(** * Further properties of the segmenter *)

Section SegmenterMore.

Lemma In_segment c text :
  In c (segmentIntoChapters text) <-> In c (split text) /\ is_blank c = false.
Proof.
  rewrite segmentIntoChapters_filter, filter_In, negb_true_iff. reflexivity.
Qed.

(** A piece that starts where the text has no digit starts with no digit. *)
Lemma SplitOn_head_no_digit s ps :
  SplitOn s ps -> digits_run s = 0 -> Forall no_leading_digit (firstn 1 ps).
Proof.
  intros H Hs. destruct H as [s Hno | pre d rest ps Hno Hd Hr Hps]; simpl;
    (constructor; [|constructor]).
  - destruct s as [|c s]; simpl in *; [exact I|].
    destruct (is_digit c); [discriminate|reflexivity].
  - destruct pre as [|c pre]; simpl in *; [exact I|].
    destruct (is_digit c); [discriminate|reflexivity].
Qed.

Lemma SplitOn_tail_no_digit s ps :
  SplitOn s ps -> Forall no_leading_digit (tl ps).
Proof.
  induction 1 as [s Hno | pre d rest ps Hno Hd Hr Hps IH]; simpl; [constructor|].
  pose proof (SplitOn_head_no_digit _ _ Hps Hr) as Hhead.
  destruct ps as [|q ps]; [constructor|].
  simpl in *. constructor; [now inversion Hhead | exact IH].
Qed.

Lemma SplitOn_length s ps :
  SplitOn s ps ->
  1 <= length ps /\ length (concat ps) + 9 * (length ps - 1) <= length s.
Proof.
  induction 1 as [s Hno | pre d rest ps Hno Hd Hr Hps (IH1 & IH2)]; simpl.
  - rewrite app_nil_r. lia.
  - pose proof (heading_length _ Hd). rewrite !length_app. lia.
Qed.

End SegmenterMore.

(** X1: a chapter that the segmenter returns is a single chapter for the
    segmenter: segmenting it again gives the chapter itself, alone. *)
Theorem X1_chapter_segments_to_itself text :
  Forall (fun c => segmentIntoChapters c = [c]) (segmentIntoChapters text).
Proof.
  apply Forall_forall. intros c Hc.
  apply In_segment in Hc. destruct Hc as (Hin & Hb).
  pose proof (SplitOn_no_heading _ _ (split_SplitOn text)) as Hno.
  rewrite Forall_forall in Hno. specialize (Hno c Hin).
  apply has_heading_occurs in Hno.
  rewrite segmentIntoChapters_filter, (split_no_heading _ Hno). simpl.
  now rewrite Hb.
Qed.

(** X2: the digits of a heading are all taken: no piece of the split after
    the first one starts with a digit. *)
Theorem X2_no_piece_after_heading_starts_with_digit text :
  Forall no_leading_digit (tl (split text)).
Proof. apply (SplitOn_tail_no_digit text), split_SplitOn. Qed.

(** X3: the split has at least one piece, and every heading takes nine code
    units or more of the text: the pieces and nine code units per heading
    fit in the text, so a text has at most one chapter more than the ninth
    of its length. *)
Theorem X3_pieces_and_headings_fit_in_text text :
  1 <= length (split text) /\
  length (concat (split text)) + 9 * (length (split text) - 1) <= length text /\
  9 * length (segmentIntoChapters text) <= length text + 9.
Proof.
  destruct (SplitOn_length _ _ (split_SplitOn text)) as (H1 & H2).
  split; [exact H1|]. split; [exact H2|].
  pose proof (filter_length_le (fun c => negb (is_blank c)) (split text)) as Hf.
  rewrite segmentIntoChapters_filter. lia.
Qed.

(** *** The letter case of the text and the split *)

Section LetterCase.

Lemma is_lower_spec c : is_lower c = true <-> (97 <= c <= 122)%N.
Proof. unfold is_lower. rewrite andb_true_iff, !N.leb_le. reflexivity. Qed.

Lemma to_upper_cases c :
  ((97 <= c <= 122)%N /\ to_upper c = (c - 32)%N) \/
  (~ (97 <= c <= 122)%N /\ to_upper c = c).
Proof.
  unfold to_upper. destruct (is_lower c) eqn:E.
  - left. split; [now apply is_lower_spec|reflexivity].
  - right. split; [|reflexivity]. rewrite <- is_lower_spec. congruence.
Qed.

Lemma char_matches_ci_to_upper p c :
  char_matches_ci p (to_upper c) = char_matches_ci p c.
Proof.
  apply eq_true_iff_eq. unfold char_matches_ci, is_upper, is_lower.
  rewrite !orb_true_iff, !andb_true_iff, !N.eqb_eq, !N.leb_le.
  destruct (to_upper_cases c) as [(Hc & ->)|(Hc & ->)]; lia.
Qed.

Lemma is_digit_to_upper c : is_digit (to_upper c) = is_digit c.
Proof.
  apply eq_true_iff_eq. unfold is_digit.
  rewrite !andb_true_iff, !N.leb_le.
  destruct (to_upper_cases c) as [(Hc & ->)|(Hc & ->)]; lia.
Qed.

Lemma is_white_space_to_upper c : is_white_space (to_upper c) = is_white_space c.
Proof.
  destruct (to_upper_cases c) as [(Hc & E)|(Hc & ->)]; [|reflexivity].
  rewrite E. apply eq_true_iff_eq. unfold is_white_space.
  rewrite !orb_true_iff, !andb_true_iff, !N.eqb_eq, !N.leb_le. lia.
Qed.

Lemma match_literal_upper pat s :
  match_literal pat (upper_case s) = option_map upper_case (match_literal pat s).
Proof.
  revert s; induction pat as [|p pat IH]; intros s; simpl; [reflexivity|].
  destruct s as [|c s]; simpl; [reflexivity|].
  rewrite char_matches_ci_to_upper.
  destruct (char_matches_ci p c); [apply IH|reflexivity].
Qed.

Lemma digits_run_upper s : digits_run (upper_case s) = digits_run s.
Proof.
  induction s as [|c s IH]; simpl; [reflexivity|].
  rewrite is_digit_to_upper, IH. reflexivity.
Qed.

Lemma heading_match_upper s : heading_match (upper_case s) = heading_match s.
Proof.
  unfold heading_match. rewrite match_literal_upper.
  destruct (match_literal heading_literal s) as [r|]; simpl; [|reflexivity].
  now rewrite digits_run_upper.
Qed.

Lemma heading_at_iff s i :
  heading_at s i <-> heading_match (skipn i s) <> None.
Proof.
  rewrite <- (Nat.add_0_r i) at 1. rewrite <- heading_at_skipn.
  split.
  - intros H E. apply heading_match_None in E. contradiction.
  - intros H. destruct (heading_match (skipn i s)) as [n|] eqn:E; [|congruence].
    destruct (heading_match_Some _ _ E) as (d & rest & Hs & Hd & _).
    exists d, rest. simpl. auto.
Qed.

Lemma heading_at_upper s i : heading_at (upper_case s) i <-> heading_at s i.
Proof.
  rewrite !heading_at_iff. unfold upper_case.
  rewrite skipn_map. fold (upper_case (skipn i s)).
  now rewrite heading_match_upper.
Qed.

(** A heading followed by no digit, in terms of the matcher. *)
Lemma heading_iff_match d rest :
  is_heading d /\ digits_run rest = 0 <->
  heading_match (d ++ rest) = Some (length d).
Proof.
  split.
  - intros (Hd & Hr).
    destruct (heading_match_complete d rest Hd) as (n & Hn).
    destruct (heading_match_Some _ _ Hn) as (d' & rest' & E & Hd' & Hl & Hr').
    destruct (heading_unique _ _ _ _ E Hd Hr Hd' Hr') as (-> & _).
    now rewrite Hn, Hl.
  - intros H.
    destruct (heading_match_Some _ _ H) as (d' & rest' & E & Hd' & Hl & Hr').
    symmetry in Hl.
    destruct (app_inv_length _ _ _ _ Hl E) as (-> & ->). auto.
Qed.

Lemma SplitOn_upper s ps :
  SplitOn s ps -> SplitOn (upper_case s) (map upper_case ps).
Proof.
  induction 1 as [s Hno | pre d rest ps Hno Hd Hr Hps IH]; simpl.
  - apply SplitOn_done. intros i Hi.
    exact (Hno i (proj1 (heading_at_upper s i) Hi)).
  - unfold upper_case at 1. rewrite !map_app.
    fold (upper_case pre) (upper_case d) (upper_case rest).
    assert (Hm : is_heading (upper_case d) /\ digits_run (upper_case rest) = 0).
    { apply heading_iff_match. unfold upper_case. rewrite <- map_app, length_map.
      fold (upper_case (d ++ rest)). rewrite heading_match_upper.
      apply heading_iff_match. auto. }
    apply SplitOn_next; try apply Hm; [|exact IH].
    intros i Hi.
    unfold upper_case in Hi. rewrite length_map in Hi.
    unfold upper_case. rewrite <- !map_app. fold (upper_case (pre ++ d ++ rest)).
    rewrite heading_at_upper. now apply Hno.
Qed.

Lemma is_blank_upper s : is_blank (upper_case s) = is_blank s.
Proof.
  unfold is_blank, upper_case. induction s as [|c s IH]; simpl; [reflexivity|].
  now rewrite is_white_space_to_upper, IH.
Qed.

End LetterCase.

(** X4: the pattern ignores the letter case: putting the text in capital
    letters does not move the boundaries of the chapters; the pieces of the
    split and the chapters of the capitalized text are the capitalized
    pieces and chapters of the text. *)
Theorem X4_segmenter_commutes_with_upper_case text :
  split (upper_case text) = map upper_case (split text) /\
  segmentIntoChapters (upper_case text) =
    map upper_case (segmentIntoChapters text).
Proof.
  assert (Hs : split (upper_case text) = map upper_case (split text)).
  { apply (SplitOn_functional (upper_case text)); [apply split_SplitOn|].
    apply SplitOn_upper, split_SplitOn. }
  split; [exact Hs|].
  rewrite !segmentIntoChapters_filter, Hs. clear Hs.
  induction (split text) as [|c l IH]; simpl; [reflexivity|].
  rewrite is_blank_upper. destruct (is_blank c); simpl; [exact IH|].
  f_equal. exact IH.
Qed.

(** * Properties of the cleaning of the answer (line 96) *)

Section Fences.

Lemma remove_fences_cons c s' :
  remove_fences (c :: s') =
  match fence_match (c :: s') with
  | Some n => remove_fences (skipn n (c :: s'))
  | None => c :: remove_fences s'
  end.
Proof.
  simp remove_fences.
  destruct (Equations.Prop.Logic.inspect (fence_match (c :: s'))) as [[n|] E];
    simp remove_fences; now rewrite E.
Qed.

Lemma starts_with_iff pre s :
  starts_with pre s = true <-> exists b, s = pre ++ b.
Proof.
  revert s; induction pre as [|p pre IH]; intros s; simpl.
  - split; [intros _; now exists s | reflexivity].
  - destruct s as [|c s].
    + split; [discriminate | intros (b & Hb); discriminate].
    + rewrite andb_true_iff, N.eqb_eq, IH. split.
      * intros (-> & b & ->). now exists b.
      * intros (b & Hb). inversion Hb; subst. split; [reflexivity|now exists b].
Qed.

Lemma has_fence_iff s :
  has_fence s = true <-> exists a b, s = a ++ fence ++ b.
Proof.
  unfold has_fence. rewrite existsb_exists. split.
  - intros (i & _ & Hi). apply starts_with_iff in Hi. destruct Hi as (b & Hb).
    exists (firstn i s), b. rewrite <- Hb. symmetry. apply firstn_skipn.
  - intros (a & b & ->). exists (length a). split.
    + apply in_seq. rewrite !length_app. simpl. lia.
    + apply starts_with_iff. exists b.
      rewrite skipn_app, skipn_all, Nat.sub_diag. reflexivity.
Qed.

Lemma has_fence_false s :
  has_fence s = false <-> forall a b, s <> a ++ fence ++ b.
Proof.
  rewrite <- not_true_iff_false, has_fence_iff. split.
  - intros H a b E. apply H. eauto.
  - intros H (a & b & E). exact (H a b E).
Qed.

(** A fence is not created by taking a part of the string. *)
Lemma has_fence_part a m b :
  has_fence (a ++ m ++ b) = false -> has_fence m = false.
Proof.
  rewrite !has_fence_false. intros H a' b' ->.
  apply (H (a ++ a') (b' ++ b)). now rewrite <- !app_assoc.
Qed.

Lemma fence_match_None s :
  fence_match s = None <-> starts_with fence s = false.
Proof.
  unfold fence_match.
  destruct (starts_with fence_json s) eqn:Ej.
  - apply starts_with_iff in Ej. destruct Ej as (b & ->).
    split; [discriminate|]. intros H. exfalso.
    assert (Ht : starts_with fence (fence_json ++ b) = true) by reflexivity.
    congruence.
  - destruct (starts_with fence s); split; congruence.
Qed.

Lemma fence_match_Some s n :
  fence_match s = Some n ->
  exists r, s = fence ++ r /\ (n = 3 \/ (n = 7 /\ exists r', r = str "json" ++ r')).
Proof.
  unfold fence_match.
  destruct (starts_with fence_json s) eqn:Ej.
  - apply starts_with_iff in Ej. destruct Ej as (b & ->).
    intros H; inversion H; subst. exists (str "json" ++ b).
    split; [reflexivity|]. right. split; [reflexivity|now exists b].
  - destruct (starts_with fence s) eqn:Ef; [|discriminate].
    apply starts_with_iff in Ef. destruct Ef as (b & ->).
    intros H; inversion H; subst. exists b. auto.
Qed.

(** When [s] does not start with a backquote, neither does what is left of
    it. *)
Lemma remove_fences_head s :
  starts_with [96%N] s = false -> starts_with [96%N] (remove_fences s) = false.
Proof.
  destruct s as [|c s]; [reflexivity|]. intros H.
  rewrite remove_fences_cons.
  assert (Hm : fence_match (c :: s) = None).
  { apply fence_match_None. simpl in *.
    destruct (c =? 96)%N; [discriminate|reflexivity]. }
  rewrite Hm. simpl in *. destruct (c =? 96)%N; [discriminate|reflexivity].
Qed.

Lemma remove_fences_two s :
  starts_with fence (96%N :: s) = false ->
  starts_with [96%N; 96%N] (remove_fences s) = false.
Proof.
  intros H. destruct s as [|x s]; [reflexivity|].
  destruct (N.eqb_spec x 96) as [->|Hx].
  - assert (Hs : starts_with [96%N] s = false).
    { simpl in H. simpl. destruct s as [|y s]; [reflexivity|].
      destruct (y =? 96)%N; [discriminate|reflexivity]. }
    rewrite remove_fences_cons.
    assert (Hm : fence_match (96%N :: s) = None).
    { apply fence_match_None. simpl. destruct s as [|y s]; [reflexivity|].
      simpl in Hs. destruct (y =? 96)%N; [discriminate|reflexivity]. }
    rewrite Hm. apply remove_fences_head in Hs.
    simpl in *. exact Hs.
  - rewrite remove_fences_cons.
    assert (Hm : fence_match (x :: s) = None).
    { apply fence_match_None. simpl.
      destruct (N.eqb_spec x 96); [contradiction|reflexivity]. }
    rewrite Hm. simpl.
    destruct (N.eqb_spec x 96); [contradiction|reflexivity].
Qed.

Lemma remove_fences_no_fence s : has_fence (remove_fences s) = false.
Proof.
  funelim (remove_fences s).
  - reflexivity.
  - assumption.
  - apply has_fence_false. intros a b E.
    destruct a as [|x a]; simpl in E.
    + inversion E as [[Hc Hout]]. subst c.
      assert (Hm : starts_with fence (96%N :: s') = false)
        by now apply fence_match_None.
      apply remove_fences_two in Hm. rewrite Hout in Hm. discriminate.
    + inversion E as [[Hc Hout]].
      rewrite has_fence_false in H. exact (H a b Hout).
Qed.

Lemma remove_fences_id s : has_fence s = false -> remove_fences s = s.
Proof.
  induction s as [|c s IH]; intros H; [reflexivity|].
  rewrite remove_fences_cons.
  assert (Hm : fence_match (c :: s) = None).
  { apply fence_match_None. apply not_true_iff_false. intros Ht.
    apply starts_with_iff in Ht. destruct Ht as (b & Hb).
    rewrite has_fence_false in H. exact (H [] b Hb). }
  rewrite Hm, IH; [reflexivity|].
  apply (has_fence_part [c] s []). now rewrite app_nil_r.
Qed.

(** *** [trim] takes a part of the string and is idempotent *)

Lemma trimStart_suffix s : exists a, s = a ++ trimStart s.
Proof.
  induction s as [|c s (a & IH)]; [now exists []|]. simpl.
  destruct (is_white_space c).
  - exists (c :: a). simpl. now rewrite <- IH.
  - now exists [].
Qed.

Lemma trim_part s : exists a b, s = a ++ trim s ++ b.
Proof.
  unfold trim, trimEnd.
  destruct (trimStart_suffix s) as (a & Ha).
  destruct (trimStart_suffix (rev (trimStart s))) as (b & Hb).
  exists a, (rev b). rewrite <- rev_app_distr, <- Hb, rev_involutive. exact Ha.
Qed.

Lemma trimStart_fixed s :
  trimStart s = s <-> starts_with_white_space s = false.
Proof.
  unfold starts_with_white_space. destruct s as [|c s]; simpl; [tauto|].
  destruct (is_white_space c) eqn:E; [|tauto].
  split; [|discriminate]. intros H. exfalso.
  destruct (trimStart_suffix s) as (a & Ha).
  apply (f_equal (@length N)) in H. apply (f_equal (@length N)) in Ha.
  rewrite length_app in Ha. simpl in H. lia.
Qed.

Lemma trimStart_head s : starts_with_white_space (trimStart s) = false.
Proof.
  unfold starts_with_white_space.
  induction s as [|c s IH]; simpl; [reflexivity|].
  destruct (is_white_space c) eqn:E; [exact IH|]. simpl. exact E.
Qed.

Lemma trimStart_keeps_last x h :
  is_white_space h = false -> exists y, trimStart (x ++ [h]) = y ++ [h].
Proof.
  intros Hh. induction x as [|c x (y & IH)]; simpl.
  - rewrite Hh. now exists [].
  - destruct (is_white_space c); [now exists y|]. now exists (c :: x).
Qed.

Lemma trimEnd_head t :
  starts_with_white_space t = false ->
  starts_with_white_space (trimEnd t) = false.
Proof.
  unfold trimEnd. destruct t as [|h t]; [reflexivity|].
  unfold starts_with_white_space at 1. intros Hh.
  simpl rev. destruct (trimStart_keeps_last (rev t) h Hh) as (y & ->).
  rewrite rev_app_distr. simpl. exact Hh.
Qed.

Lemma trim_head s : starts_with_white_space (trim s) = false.
Proof. unfold trim. apply trimEnd_head, trimStart_head. Qed.

Lemma trim_last s : starts_with_white_space (rev (trim s)) = false.
Proof.
  unfold trim, trimEnd. rewrite rev_involutive. apply trimStart_head.
Qed.

Lemma trim_idempotent s : trim (trim s) = trim s.
Proof.
  unfold trim at 1.
  rewrite (proj2 (trimStart_fixed (trim s)) (trim_head s)).
  unfold trimEnd.
  rewrite (proj2 (trimStart_fixed (rev (trim s))) (trim_last s)).
  apply rev_involutive.
Qed.

Lemma remove_fences_after_fence body :
  has_fence body = false -> remove_fences (body ++ fence) = body.
Proof.
  induction body as [|c b IH]; intros H; [reflexivity|].
  assert (Hb : has_fence b = false)
    by (apply (has_fence_part [c] b []); now rewrite app_nil_r).
  change ((c :: b) ++ fence) with (c :: b ++ fence).
  rewrite remove_fences_cons.
  destruct (fence_match (c :: b ++ fence)) as [n|] eqn:E.
  - destruct (fence_match_Some _ _ E) as (r & Hr & _).
    simpl in Hr. inversion Hr as [[Hc Hrest]]. subst c.
    destruct b as [|x [|y b]]; simpl in Hrest.
    + vm_compute in E. inversion E; subst n. reflexivity.
    + inversion Hrest; subst x.
      vm_compute in E. inversion E; subst n. reflexivity.
    + inversion Hrest; subst x y. exfalso.
      rewrite has_fence_false in H. exact (H [] b eq_refl).
  - now rewrite IH.
Qed.

End Fences.

(** X5: the cleaned answer has no fence left in it and no white space at
    either end. *)
Theorem X5_cleaned_answer_has_no_fence responseText :
  has_fence (cleanResponse responseText) = false /\
  starts_with_white_space (cleanResponse responseText) = false /\
  starts_with_white_space (rev (cleanResponse responseText)) = false.
Proof.
  unfold cleanResponse. split; [|split; [apply trim_head | apply trim_last]].
  destruct (trim_part (remove_fences responseText)) as (a & b & E).
  apply (has_fence_part a _ b). rewrite <- E. apply remove_fences_no_fence.
Qed.

(** X6: cleaning is idempotent: a cleaned answer is not changed by cleaning
    it again. *)
Theorem X6_cleaning_twice_is_cleaning_once responseText :
  cleanResponse (cleanResponse responseText) = cleanResponse responseText.
Proof.
  unfold cleanResponse at 1.
  rewrite remove_fences_id.
  - unfold cleanResponse. apply trim_idempotent.
  - unfold cleanResponse.
    destruct (trim_part (remove_fences responseText)) as (a & b & E).
    apply (has_fence_part a _ b). rewrite <- E. apply remove_fences_no_fence.
Qed.

(** X7: an answer without a fence is only trimmed. *)
Theorem X7_answer_without_fence_is_trimmed responseText :
  has_fence responseText = false ->
  cleanResponse responseText = trim responseText.
Proof. intros H. unfold cleanResponse. now rewrite remove_fences_id. Qed.

(** X7 on a JSON text with a line break at its end. *)
Lemma X7_answer_without_fence_is_trimmed_witness :
  cleanResponse (Sample.answer_text ++ [LF]) = trim (Sample.answer_text ++ [LF]).
Proof.
  apply (X7_answer_without_fence_is_trimmed (Sample.answer_text ++ [LF])).
  reflexivity.
Defined.

(** X8: an answer that is a text without a fence between an opening fence
    with "json" and a closing fence is cleaned to that text, trimmed. *)
Theorem X8_fenced_answer_is_unwrapped body :
  has_fence body = false ->
  cleanResponse (fence_json ++ body ++ fence) = trim body.
Proof.
  intros H. unfold cleanResponse. f_equal.
  change (fence_json ++ body ++ fence)
    with (96%N :: (96%N :: 96%N :: str "json") ++ body ++ fence).
  rewrite remove_fences_cons.
  change (fence_match (96%N :: (96%N :: 96%N :: str "json") ++ body ++ fence))
    with (Some 7).
  change (skipn 7 (96%N :: (96%N :: 96%N :: str "json") ++ body ++ fence))
    with (body ++ fence).
  now apply remove_fences_after_fence.
Qed.

(** X8 on the answer of the sample. *)
Lemma X8_fenced_answer_is_unwrapped_witness :
  cleanResponse (fence_json ++ ([LF] ++ Sample.answer_text ++ [LF]) ++ fence) =
  Sample.answer_text.
Proof.
  apply (X8_fenced_answer_is_unwrapped ([LF] ++ Sample.answer_text ++ [LF])).
  reflexivity.
Defined.

(** * Invariants of the handler, whatever the services answer *)

Section HandlerInvariants.

Variable number : Type.
Variable JSON_parse : jsstring -> option (json number).
Variable pdfParse : buffer -> option jsstring.
Variable sv : services number.

#[local] Abbreviation handler' := (upload_handler JSON_parse pdfParse sv).

Lemma advanced_refl (w : world number) chapters from :
  advanced w w chapters from 0 0.
Proof.
  unfold advanced. simpl. rewrite app_nil_r. repeat split.
  exists []. now rewrite app_nil_r.
Qed.

Lemma advanced_trans (w w1 w2 : world number) chapters from a b c :
  advanced w w1 chapters from a a ->
  advanced w1 w2 chapters (from + a) b c ->
  advanced w w2 chapters from (a + b) (a + c).
Proof.
  intros (Hf1 & Hu1 & (r1 & Hs1 & Hn1) & Hc1) (Hf2 & Hu2 & (r2 & Hs2 & Hn2) & Hc2).
  unfold advanced. repeat split; try congruence.
  - exists (r1 ++ r2). split.
    + rewrite Hs2, Hs1. now rewrite app_assoc.
    + rewrite map_app, Hn1, Hn2, seq_app. do 2 f_equal. lia.
  - rewrite Hc2, Hc1, seq_app, map_app. now rewrite app_assoc.
Qed.

(** One turn of the loop: a call to the endpoint, and a row if the turn
    returns. *)
Lemma process_chapter_advanced chapters i (w : world number) :
  match process_chapter JSON_parse sv chapters i w with
  | (Return _, w') => advanced w w' chapters i 1 1
  | (Throw _, w') => advanced w w' chapters i 0 1
  end.
Proof.
  unfold process_chapter, bind at 1 2.
  unfold getSummaryFromDeepSeek, chat_completion, bind at 1, console_log,
    console_write, add_line.
  cbn [files summaries completion_calls unlink_calls console fst snd].
  destruct (complete sv (completion_calls w) (nth i chapters [])) as [|[content|]].
  - unfold advanced; cbn. repeat split. exists []. now rewrite app_nil_r.
  - destruct (JSON_parse (cleanResponse content)) as [v|].
    + unfold ret at 1, bind at 1.
      assert (Hv : v = JNull \/ v <> JNull)
        by (destruct v; (now left) || (right; discriminate)).
      destruct Hv as [->|Hv].
      * unfold advanced; cbn. repeat split. exists []. now rewrite app_nil_r.
      * rewrite (destructure_ok _ _ _ Hv).
        unfold storeSummaryInSupabase, supabase_insert, bind at 1 2.
        cbn [files summaries completion_calls unlink_calls console].
        destruct (insert_error sv _ _) as [message|].
        -- unfold advanced; cbn. repeat split. exists []. now rewrite app_nil_r.
        -- unfold advanced; cbn. repeat split.
           eexists. split; [reflexivity|]. simpl. reflexivity.
    + unfold advanced; cbn. repeat split. exists []. now rewrite app_nil_r.
  - unfold advanced; cbn. repeat split. exists []. now rewrite app_nil_r.
Qed.

(** The loop: it returns after a row and a call per index, or throws at
    some index [m], after [m] rows and [m + 1] calls. *)
Lemma for_loop_advanced chapters n from (w : world number) :
  match for_loop n from (process_chapter JSON_parse sv chapters) w with
  | (Return _, w') => advanced w w' chapters from n n
  | (Throw _, w') => exists m, m < n /\ advanced w w' chapters from m (S m)
  end.
Proof.
  revert from w; induction n as [|n IH]; intros from w.
  - simpl. apply advanced_refl.
  - rewrite for_loop_S.
    pose proof (process_chapter_advanced chapters from w) as H1.
    destruct (process_chapter JSON_parse sv chapters from w) as [[[]|e] w1].
    + specialize (IH (S from) w1).
      destruct (for_loop n (S from) _ w1) as [[[]|e] w2].
      * apply (advanced_trans _ _ _ _ _ 1 n n H1).
        now rewrite Nat.add_1_r.
      * destruct IH as (m & Hm & IH). exists (S m). split; [lia|].
        apply (advanced_trans _ _ _ _ _ 1 m (S m) H1).
        now rewrite Nat.add_1_r.
    + exists 0. split; [lia|exact H1].
Qed.

(** The request either fails before the loop or comes to the loop with a
    text. *)
Lemma handler_cases req (w : world number) :
  (exists e, handler' req w = (Return (500, ProcessingError), add_line w (ErrCaught e))) \/
  (exists p buf text,
     file req = Some p /\ lookup_file p (files w) = Some buf /\
     pdfParse buf = Some text).
Proof.
  destruct (file req) as [p|] eqn:Hf.
  - destruct (lookup_file p (files w)) as [buf|] eqn:Hb.
    + destruct (pdfParse buf) as [text|] eqn:Ht.
      * right. now exists p, buf, text.
      * left. apply handler_extraction_fails. now rewrite Hf, Hb.
    + left. apply handler_extraction_fails. now rewrite Hf, Hb.
  - left. apply handler_extraction_fails. now rewrite Hf.
Qed.

Lemma lookup_remove_file p q (fs : list (path * buffer)) :
  lookup_file q (remove_file p fs) =
  if jsstring_eqb p q then None else lookup_file q fs.
Proof.
  unfold remove_file, jsstring_eqb.
  induction fs as [|[p' b] fs IH]; simpl.
  - now destruct (list_eq_dec N.eq_dec p q).
  - unfold jsstring_eqb in *.
    destruct (list_eq_dec N.eq_dec p' p) as [->|Hp]; simpl.
    + rewrite IH. destruct (list_eq_dec N.eq_dec p q); reflexivity.
    + unfold jsstring_eqb. rewrite IH.
      destruct (list_eq_dec N.eq_dec p' q) as [->|Hq];
        destruct (list_eq_dec N.eq_dec p q); try reflexivity. congruence.
Qed.

(** All the outcomes of a request that comes to the loop. *)
Lemma handler_outcomes req (w : world number) p buf text :
  file req = Some p ->
  lookup_file p (files w) = Some buf ->
  pdfParse buf = Some text ->
  let chapters := segmentIntoChapters text in
  (exists w1 e m,
     m < length chapters /\ advanced w w1 chapters 0 m (S m) /\
     handler' req w = (Return (500, ProcessingError), add_line w1 (ErrCaught e))) \/
  (exists w1,
     advanced w w1 chapters 0 (length chapters) (length chapters) /\
     handler' req w =
     (Return (500, ProcessingError),
      add_line {| files := files w1; summaries := summaries w1;
                  completion_calls := completion_calls w1;
                  unlink_calls := unlink_calls w1 ++ [p];
                  console := console w1 |} (ErrCaught UnlinkError))) \/
  (exists w1,
     advanced w w1 chapters 0 (length chapters) (length chapters) /\
     handler' req w =
     (Return (200, BookProcessed),
      {| files := remove_file p (files w1); summaries := summaries w1;
         completion_calls := completion_calls w1;
         unlink_calls := unlink_calls w1 ++ [p];
         console := console w1 |})).
Proof.
  intros Hf Hb Ht chapters.
  rewrite (handler_after_loop _ _ _ _ _ _ _ _ _ Hf Hb Ht). fold chapters.
  pose proof (for_loop_advanced chapters (length chapters) 0 w) as Hl.
  destruct (for_loop (length chapters) 0 _ w) as [[[]|e] w1].
  - right. unfold fs_unlink.
    destruct Hl as (Hfiles & Hrest). rewrite Hfiles, Hb.
    destruct (unlink_fails sv p).
    + left. exists w1. split; [now split|]. now rewrite Hfiles.
    + right. exists w1. split; [now split|]. now rewrite Hfiles.
  - left. destruct Hl as (m & Hm & Hl). now exists w1, e, m.
Qed.

End HandlerInvariants.

Section HandlerTheorems.

Variable number : Type.
Variable JSON_parse : jsstring -> option (json number).
Variable pdfParse : buffer -> option jsstring.
Variable sv : services number.
Variables (req : request) (w : world number).

Lemma advanced_rows (w1 : world number) chapters stored called :
  advanced w w1 chapters 0 stored called ->
  exists rows,
    summaries w1 = summaries w ++ rows /\
    length rows = stored /\
    map chapter_number rows = seq 1 (length rows) /\
    completion_calls w1 =
      completion_calls w ++ map (fun i => nth i chapters []) (seq 0 called).
Proof.
  intros (_ & _ & (rows & Hs & Hn) & Hc). exists rows.
  assert (Hl : length rows = stored)
    by (apply (f_equal (@length nat)) in Hn;
        now rewrite length_map, length_seq in Hn).
  rewrite Hl. auto.
Qed.

(** X9: whatever the request and the services, the rows that were in the
    table are left as they are, the rows of the request come after them and
    are numbered 1, 2, ... without a gap, and the endpoint was called once
    for each of them and at most once more. *)
Theorem X9_rows_are_appended_and_numbered :
  exists rows calls,
    summaries (snd (upload_handler JSON_parse pdfParse sv req w)) = summaries w ++ rows /\
    map chapter_number rows = seq 1 (length rows) /\
    completion_calls (snd (upload_handler JSON_parse pdfParse sv req w)) =
      completion_calls w ++ calls /\
    length rows <= length calls <= S (length rows).
Proof.
  destruct (handler_cases _ JSON_parse pdfParse sv req w)
    as [(e & ->)|(p & buf & text & Hf & Hb & Ht)].
  - exists [], []. simpl. rewrite !app_nil_r. repeat split; auto.
  - destruct (handler_outcomes _ JSON_parse pdfParse sv req w p buf text Hf Hb Ht)
      as [(w1 & e & m & _ & Ha & ->)|[(w1 & Ha & ->)|(w1 & Ha & ->)]];
      destruct (advanced_rows _ _ _ _ Ha) as (rows & Hs & Hl & Hn & Hc);
      exists rows; eexists; cbn [snd add_line summaries completion_calls];
      (split; [exact Hs|]); (split; [exact Hn|]); (split; [exact Hc|]);
      rewrite length_map, length_seq; lia.
Qed.

(** X10: the confirmation (200) is sent only when the request had a file
    that was read and parsed, every chapter of its text was sent to the
    endpoint, in order, and stored, [fs.unlink] was called for the file, and
    the file is gone. *)
Theorem X10_confirmation_means_all_stored_and_file_deleted b :
  fst (upload_handler JSON_parse pdfParse sv req w) = Return (200, b) ->
  exists p buf text rows,
    file req = Some p /\
    lookup_file p (files w) = Some buf /\
    pdfParse buf = Some text /\
    b = BookProcessed /\
    summaries (snd (upload_handler JSON_parse pdfParse sv req w)) = summaries w ++ rows /\
    map chapter_number rows = seq 1 (length (segmentIntoChapters text)) /\
    completion_calls (snd (upload_handler JSON_parse pdfParse sv req w)) =
      completion_calls w ++ segmentIntoChapters text /\
    unlink_calls (snd (upload_handler JSON_parse pdfParse sv req w)) = unlink_calls w ++ [p] /\
    lookup_file p (files (snd (upload_handler JSON_parse pdfParse sv req w))) = None.
Proof.
  destruct (handler_cases _ JSON_parse pdfParse sv req w)
    as [(e & ->)|(p & buf & text & Hf & Hb & Ht)]; [discriminate|].
  destruct (handler_outcomes _ JSON_parse pdfParse sv req w p buf text Hf Hb Ht)
    as [(w1 & e & m & _ & Ha & ->)|[(w1 & Ha & ->)|(w1 & Ha & ->)]];
    try discriminate.
  intros H. inversion H; subst b.
  destruct (advanced_rows _ _ _ _ Ha) as (rows & Hs & Hl & Hn & Hc).
  destruct Ha as (Hfiles & Hu & _).
  exists p, buf, text, rows.
  cbn [snd summaries completion_calls unlink_calls files].
  repeat split; auto.
  - now rewrite <- Hl.
  - rewrite Hc. f_equal. apply sent_all.
  - now rewrite Hu.
  - rewrite lookup_remove_file. unfold jsstring_eqb.
    destruct (list_eq_dec N.eq_dec p p); [reflexivity|congruence].
Qed.


(** X12: [fs.unlink] is called at most once in a request, for the file of
    the request, and only after every chapter has been stored: a request
    that fails before or in the loop never calls it. *)
Theorem X12_unlink_only_after_every_chapter_is_stored :
  unlink_calls (snd (upload_handler JSON_parse pdfParse sv req w)) = unlink_calls w \/
  (exists p buf text rows,
     file req = Some p /\
     lookup_file p (files w) = Some buf /\
     pdfParse buf = Some text /\
     unlink_calls (snd (upload_handler JSON_parse pdfParse sv req w)) = unlink_calls w ++ [p] /\
     summaries (snd (upload_handler JSON_parse pdfParse sv req w)) = summaries w ++ rows /\
     length rows = length (segmentIntoChapters text)).
Proof.
  destruct (handler_cases _ JSON_parse pdfParse sv req w)
    as [(e & ->)|(p & buf & text & Hf & Hb & Ht)]; [now left|].
  destruct (handler_outcomes _ JSON_parse pdfParse sv req w p buf text Hf Hb Ht)
    as [(w1 & e & m & _ & Ha & ->)|[(w1 & Ha & ->)|(w1 & Ha & ->)]];
    destruct (advanced_rows _ _ _ _ Ha) as (rows & Hs & Hl & _);
    destruct Ha as (_ & Hu & _); cbn [snd add_line unlink_calls summaries];
    [left; exact Hu | right | right];
    exists p, buf, text, rows; rewrite Hu; auto 10.
Qed.


(** X14: a request without a file, with a file that cannot be read, or with
    a PDF that cannot be parsed is answered with the error (500); the
    endpoint is not called, no row is stored, and no file is deleted. *)
Theorem X14_failed_extraction_touches_nothing :
  (forall p buf, file req = Some p -> lookup_file p (files w) = Some buf ->
                 pdfParse buf = None) ->
  fst (upload_handler JSON_parse pdfParse sv req w) = Return (500, ProcessingError) /\
  summaries (snd (upload_handler JSON_parse pdfParse sv req w)) = summaries w /\
  completion_calls (snd (upload_handler JSON_parse pdfParse sv req w)) = completion_calls w /\
  unlink_calls (snd (upload_handler JSON_parse pdfParse sv req w)) = unlink_calls w /\
  files (snd (upload_handler JSON_parse pdfParse sv req w)) = files w.
Proof.
  intros H.
  destruct (handler_extraction_fails _ JSON_parse pdfParse sv req w) as (e & ->).
  - destruct (file req) as [p|]; [|exact I].
    destruct (lookup_file p (files w)) as [buf|] eqn:Hb; [|exact I].
    now apply (H p buf).
  - repeat split.
Qed.

End HandlerTheorems.

(** X10 on the sample run where everything works. *)
Lemma X10_confirmation_means_all_stored_and_file_deleted_witness :
  exists p buf text rows,
    file Sample.request_book = Some p /\
    lookup_file p (files Sample.world0) = Some buf /\
    Sample.pdfParse buf = Some text /\
    BookProcessed = BookProcessed /\
    summaries (snd (upload_handler Sample.JSON_parse Sample.pdfParse
                      Sample.all_fine Sample.request_book Sample.world0))
      = summaries Sample.world0 ++ rows /\
    map chapter_number rows = seq 1 (length (segmentIntoChapters text)) /\
    completion_calls (snd (upload_handler Sample.JSON_parse Sample.pdfParse
                             Sample.all_fine Sample.request_book Sample.world0))
      = completion_calls Sample.world0 ++ segmentIntoChapters text /\
    unlink_calls (snd (upload_handler Sample.JSON_parse Sample.pdfParse
                         Sample.all_fine Sample.request_book Sample.world0))
      = unlink_calls Sample.world0 ++ [p] /\
    lookup_file p (files (snd (upload_handler Sample.JSON_parse Sample.pdfParse
                                 Sample.all_fine Sample.request_book Sample.world0)))
      = None.
Proof.
  apply (X10_confirmation_means_all_stored_and_file_deleted
           N Sample.JSON_parse Sample.pdfParse Sample.all_fine
           Sample.request_book Sample.world0 BookProcessed).
  vm_compute. reflexivity.
Defined.

(** X14 on a request without a file. *)
Lemma X14_failed_extraction_touches_nothing_witness :
  let run := upload_handler Sample.JSON_parse Sample.pdfParse Sample.all_fine
               {| file := None |} Sample.world0 in
  fst run = Return (500, ProcessingError) /\
  summaries (snd run) = [] /\
  completion_calls (snd run) = [] /\
  unlink_calls (snd run) = [] /\
  files (snd run) = [(Sample.upload_path, example_text)].
Proof.
  apply (X14_failed_extraction_touches_nothing
           N Sample.JSON_parse Sample.pdfParse Sample.all_fine
           {| file := None |} Sample.world0).
  intros p buf Hp. discriminate Hp.
Defined.

(** * Further properties of the summarization client and of the start *)

Section Client.

Variable number : Type.
Variable JSON_parse : jsstring -> option (json number).
Variable sv : services number.

(** X15: [getSummaryFromDeepSeek] calls the endpoint exactly once, with the
    chapter as the user content, and touches neither the table nor the
    files, whether it returns or throws.  It returns [v] exactly when the
    endpoint answers with a text that, cleaned, parses to [v]; it throws
    "Failed to parse API response." exactly when that text does not parse,
    after writing the cleaned text to the console. *)
Theorem X15_summary_client_outcomes text (w : world number) :
  let r := getSummaryFromDeepSeek JSON_parse sv text w in
  completion_calls (snd r) = completion_calls w ++ [text] /\
  summaries (snd r) = summaries w /\
  files (snd r) = files w /\
  unlink_calls (snd r) = unlink_calls w /\
  (forall v,
     fst r = Return v <->
     exists content,
       complete sv (completion_calls w) text = Content (Some content) /\
       JSON_parse (cleanResponse content) = Some v) /\
  (fst r = Throw ParseFailure <->
   exists content,
     complete sv (completion_calls w) text = Content (Some content) /\
     JSON_parse (cleanResponse content) = None /\
     console (snd r) =
       console w ++ [ErrParsing; ErrResponseText (cleanResponse content)]).
Proof.
  cbv zeta.
  unfold getSummaryFromDeepSeek, chat_completion, bind, ret, throw,
    console_error, console_write, add_line.
  destruct (complete sv (completion_calls w) text) as [|[content|]];
    cbn [fst snd files summaries completion_calls unlink_calls console].
  - repeat split; try discriminate; intros (c & Hc & _); discriminate.
  - destruct (JSON_parse (cleanResponse content)) as [v|] eqn:Hp;
      cbn [fst snd files summaries completion_calls unlink_calls console].
    + repeat split; try discriminate.
      * intros H. inversion H; subst. exists content. auto.
      * intros (c & Hc & Hv). inversion Hc; subst. congruence.
      * intros (c & Hc & Hv & _). inversion Hc; subst. congruence.
    + repeat split; try discriminate.
      * intros (c & Hc & Hv). inversion Hc; subst. congruence.
      * intros _. exists content. rewrite <- app_assoc. auto.
  - repeat split; try discriminate; intros (c & Hc & _); discriminate.
Qed.

End Client.

Section StartupMore.

Lemma run_snoc p evs e : run p (evs ++ [e]) = step (run p evs) e.
Proof. now rewrite run_app. Qed.

(** Requests to a process that listens and has not exited. *)
Lemma run_requests pending n out k :
  run {| listening := true; check_pending := pending; exit_code := None;
         accepted := k; output := out |} (repeat UploadRequest n) =
  {| listening := true; check_pending := pending; exit_code := None;
     accepted := k + n; output := out |}.
Proof.
  revert k; induction n as [|n IH]; intros k; simpl.
  - now rewrite Nat.add_0_r.
  - change (run ?p (UploadRequest :: ?l)) with (run (step p UploadRequest) l).
    unfold step at 1. cbn [exit_code listening check_pending accepted output].
    rewrite IH. now rewrite Nat.add_succ_comm.
Qed.

End StartupMore.

(** X16: when the startup read returns data, the process goes on: it has
    not exited, it has written that the server runs and that the store is
    connected, and it has accepted every upload request, those that arrived
    while the read was awaited and those that arrived after. *)
Theorem X16_successful_check_keeps_serving n m :
  run boot (Listening :: repeat UploadRequest n ++ [SelectSettled SelectData] ++
            repeat UploadRequest m) =
  {| listening := true; check_pending := false; exit_code := None;
     accepted := n + m; output := [LogServerRunning; LogConnected] |}.
Proof.
  change (run boot (Listening :: ?l))
    with (run {| listening := true; check_pending := true; exit_code := None;
                 accepted := 0; output := [LogServerRunning] |} l).
  rewrite run_app, run_requests, run_app. simpl (0 + n).
  change (run ?p [SelectSettled SelectData])
    with (step p (SelectSettled SelectData)).
  unfold step at 1. cbn.
  apply run_requests.
Qed.

(** X17: the process exits with no other status than 1, and only when a
    startup read has settled with a failure (an error result or a rejected
    promise); the last line it writes is then "Failed to connect to
    Supabase. Exiting...". *)
Theorem X17_exit_only_after_failed_check events :
  exit_code (run boot events) = None \/
  (exit_code (run boot events) = Some 1 /\
   (exists r, In (SelectSettled r) events /\ r <> SelectData) /\
   exists lines, output (run boot events) = lines ++ [ErrExiting]).
Proof.
  induction events as [|e events IH] using rev_ind; [now left|].
  rewrite run_snoc. unfold step.
  destruct (exit_code (run boot events)) as [c|] eqn:Hc.
  - right. destruct IH as [IH|(Hone & (r & Hr & Hd) & Hl)]; [discriminate|].
    rewrite Hc. split; [exact Hone|]. split; [|exact Hl].
    exists r. split; [|exact Hd]. apply in_or_app. now left.
  - destruct e as [|r|].
    + now left.
    + destruct (check_pending (run boot events)); [|now left].
      destruct r; cbn; try now left.
      * right. split; [reflexivity|]. split.
        -- exists SelectError. split; [|discriminate].
           apply in_or_app. right. now left.
        -- exists (output (run boot events) ++ [ErrConnection]).
           now rewrite <- app_assoc.
      * right. split; [reflexivity|]. split.
        -- exists SelectThrows. split; [|discriminate].
           apply in_or_app. right. now left.
        -- exists (output (run boot events) ++ [ErrChecking]).
           now rewrite <- app_assoc.
    + destruct (listening (run boot events)); [now left|].
      now left.
Qed.

(** X18: the process accepts no more upload requests than have arrived, and
    none before the listener is bound: without the event of the listener
    nothing happens at all. *)
Theorem X18_requests_are_accepted_only_when_listening events :
  accepted (run boot events) <= length (filter is_upload events) /\
  (In Listening events \/ run boot events = boot).
Proof.
  induction events as [|e events (IHa & IHl)] using rev_ind.
  - split; [simpl; lia | now right].
  - rewrite run_snoc, filter_app, length_app. split.
    + unfold step. destruct (exit_code (run boot events)); [lia|].
      destruct e as [|r|]; cbn.
      * lia.
      * destruct (check_pending (run boot events)); [|lia].
        destruct (checkSupabaseConnection r) as [lines []]; cbn; lia.
      * destruct (listening (run boot events)); cbn; lia.
    + destruct IHl as [IHl|IHl]; [left; apply in_or_app; now left|].
      rewrite IHl. destruct e as [|r|].
      * left. apply in_or_app. right. now left.
      * now right.
      * now right.
Qed.

Section Contents.

Variable number : Type.
Variable JSON_parse : jsstring -> option (json number).
Variable pdfParse : buffer -> option jsstring.
Variable sv : services number.



End Contents.
